(** * Gocco: a shallow embedding of [main.go]

    Gocco splits a source file into sections of documentation and code
    ([parse]), pipes the code of all sections through Pygments with a
    divider between sections and cuts the highlighted output back into
    sections ([highlight]), then renders one page per file
    ([generateHTML]).

    Go's [[]byte] and [string] are both modelled as lists of bytes; a nil
    slice and an empty slice are the same empty list.  The external
    collaborators (the [pygmentize] process, the Markdown renderer and the
    template engine) are variables of the sections that use them. *)

From Stdlib Require Import Strings.String Strings.Byte.
From Stdlib Require Import Bool Arith Lia ZArith List.
From Stdlib Require Import Sorting.Sorted Sorting.Permutation Sorting.Mergesort.
From Stdlib Require Import Structures.Orders.
Import ListNotations.
Open Scope list_scope.

(** ** Bytes *)

Abbreviation bytes := (list byte).

(** Literals: [B "abc"] is the byte sequence of the text. *)
Definition B (s : string) : bytes := list_byte_of_string s.
Arguments B s%_string.

Definition nl : byte := x0a.
Definition dquote : byte := x22.
Definition lt_sign : byte := x3c.

Fixpoint bytes_eqb (a b : bytes) : bool :=
  match a, b with
  | [], [] => true
  | x :: a', y :: b' => Byte.eqb x y && bytes_eqb a' b'
  | _, _ => false
  end.

(** [bytes.HasPrefix] *)
Fixpoint HasPrefix (s prefix : bytes) : bool :=
  match prefix, s with
  | [], _ => true
  | p :: prefix', c :: s' => Byte.eqb p c && HasPrefix s' prefix'
  | _ :: _, [] => false
  end.

(** [bytes.Split(s, sep)] for a one-byte separator: the pieces between the
    separators, one more piece than there are separators (so the empty
    input gives one empty piece, and an input that ends with the separator
    gives a last empty piece). *)
Fixpoint Split (s : bytes) (sep : byte) : list bytes :=
  match s with
  | [] => [[]]
  | c :: s' =>
      if Byte.eqb c sep then [] :: Split s' sep
      else match Split s' sep with
           | piece :: pieces => (c :: piece) :: pieces
           | [] => [[c]]
           end
  end.

(** [bytes.Replace(s, old, new, -1)] for a non-empty [old]: every
    non-overlapping instance of [old], found left to right, is replaced by
    [new].  [skip] counts the bytes of an instance still to be passed. *)
Fixpoint Replace_from (old new : bytes) (skip : nat) (s : bytes) : bytes :=
  match s with
  | [] => []
  | c :: s' =>
      match skip with
      | S k => Replace_from old new k s'
      | O =>
          if HasPrefix s old
          then new ++ Replace_from old new (length old - 1) s'
          else c :: Replace_from old new 0 s'
      end
  end.

Definition Replace (s old new : bytes) : bytes := Replace_from old new 0 s.

(** The longest prefix of bytes that have [f], and what comes after it. *)
Fixpoint takewhile (f : byte -> bool) (s : bytes) : bytes :=
  match s with
  | [] => []
  | c :: s' => if f c then c :: takewhile f s' else []
  end.

Fixpoint dropwhile (f : byte -> bool) (s : bytes) : bytes :=
  match s with
  | [] => []
  | c :: s' => if f c then dropwhile f s' else s
  end.

(** [bytes.Join([][]byte{a, b}, sep)] as used by [highlight]. *)
Definition Join2 (a b sep : bytes) : bytes := a ++ sep ++ b.

(** ** Regular expressions

    The two patterns compiled by [setup] use literals, the classes
    of whitespace and of the newline, the greedy operators [?] and [*] on
    one byte, and the beginning-of-text anchor.  [match_here] is the
    backtracking matcher whose first success Go's [regexp] reports
    (leftmost-first), and it returns the number of bytes matched.  All
    literals and classes are ASCII, so matching bytes agrees with
    matching UTF-8 runes. *)

Inductive inst : Type :=
| BeginText                         (* ^ *)
| One  (cls : byte -> bool)         (* x *)
| Opt  (cls : byte -> bool)         (* x? *)
| Star (cls : byte -> bool).        (* x* *)

Definition Regexp := list inst.

Definition lit (c : byte) : byte -> bool := Byte.eqb c.

(** [\s] is [[\t\n\f\r ]]. *)
Definition is_space (c : byte) : bool :=
  Byte.eqb c x09 || Byte.eqb c x0a || Byte.eqb c x0c || Byte.eqb c x0d
  || Byte.eqb c x20.

Definition literal (s : bytes) : Regexp := map (fun c => One (lit c)) s.

Definition prefer (a b : option nat) : option nat :=
  match a with
  | Some n => Some n
  | None => b
  end.

Fixpoint match_here (re : Regexp) (bot : bool) (s : bytes) {struct re}
  : option nat :=
  match re with
  | [] => Some 0
  | BeginText :: re' => if bot then match_here re' bot s else None
  | One cls :: re' =>
      match s with
      | c :: s' =>
          if cls c then option_map S (match_here re' false s') else None
      | [] => None
      end
  | Opt cls :: re' =>
      match s with
      | c :: s' =>
          if cls c
          then prefer (option_map S (match_here re' false s'))
                      (match_here re' bot s)
          else match_here re' bot s
      | [] => match_here re' bot s
      end
  | Star cls :: re' =>
      (fix star (bot : bool) (s : bytes) {struct s} : option nat :=
         match s with
         | c :: s' =>
             if cls c
             then prefer (option_map S (star false s')) (match_here re' bot s)
             else match_here re' bot s
         | [] => match_here re' bot s
         end) bot s
  end.

(** The search for the leftmost match, from offset [pos] of the text. *)
Fixpoint find_from (re : Regexp) (pos : nat) (s : bytes)
  : option (nat * nat) :=
  match match_here re (pos =? 0) s with
  | Some n => Some (pos, pos + n)
  | None =>
      match s with
      | [] => None
      | _ :: s' => find_from re (S pos) s'
      end
  end.

(** [re.FindIndex(b)]: the two offsets of the leftmost match, or nil. *)
Definition FindIndex (re : Regexp) (b : bytes) : option (nat * nat) :=
  find_from re 0 b.

(** [re.Match(b)] *)
Definition Match (re : Regexp) (b : bytes) : bool :=
  match FindIndex re b with
  | Some _ => true
  | None => false
  end.

(** [re.ReplaceAll(src, repl)] with a replacement free of [$]: the
    successive non-overlapping matches are replaced.  The patterns of
    [setup] contain the comment symbol, so they match no empty text; an
    empty match is passed over here. *)
Fixpoint ReplaceAll_from (re : Regexp) (repl : bytes) (pos skip : nat)
  (src : bytes) : bytes :=
  match src with
  | [] => []
  | c :: src' =>
      match skip with
      | S k => ReplaceAll_from re repl (S pos) k src'
      | O =>
          match match_here re (pos =? 0) src with
          | Some (S n) => repl ++ ReplaceAll_from re repl (S pos) n src'
          | _ => c :: ReplaceAll_from re repl (S pos) 0 src'
          end
      end
  end.

Definition ReplaceAll (re : Regexp) (src repl : bytes) : bytes :=
  ReplaceAll_from re repl 0 0 src.

(** ** Types

    [Section] is a keyword here, hence [Section_] for the Go type. *)

Record Section_ : Type := mkSection {
  docsText : bytes;
  codeText : bytes;
  DocsHTML : bytes;
  CodeHTML : bytes
}.

Record TemplateSection : Type := mkTemplateSection {
  tsDocsHTML : bytes;
  tsCodeHTML : bytes;
  tsIndex : Z
}.

Record Language : Type := mkLanguage {
  name : bytes;
  symbol : bytes;
  commentMatcher : Regexp;
  dividerText : bytes;
  dividerHTML : Regexp
}.

Record TemplateData : Type := mkTemplateData {
  Title : bytes;
  Sections : list TemplateSection;
  Sources : list bytes;
  Multiple : bool
}.

Definition highlightStart : bytes :=
  B "<div class=" ++ [dquote] ++ B "highlight" ++ [dquote] ++ B "><pre>".
Definition highlightEnd : bytes := B "</pre></div>".

(** ** The language registry *)

(** [setupLanguages]: the pairs of Pygments name and comment symbol, by
    file extension.  The map has one key, and an association list stands
    for it. *)
Definition setupLanguages : list (bytes * (bytes * bytes)) :=
  [(B ".go", (B "go", B "//"))].

(** The three derived fields that [setup] computes from the comment
    symbol.  The symbol is spliced into the pattern text as it is; for the
    registered symbol [//] the pattern reads it as two literal bytes. *)
Definition compile_commentMatcher (sym : bytes) : Regexp :=
  BeginText :: Star is_space :: literal sym ++ [Opt is_space].

Definition make_dividerText (sym : bytes) : bytes :=
  [nl] ++ sym ++ B "DIVIDER" ++ [nl].

Definition compile_dividerHTML (sym : bytes) : Regexp :=
  Star (lit nl)
  :: literal (B "<span class=" ++ [dquote] ++ B "c")
  ++ Opt (lit "1"%byte)
  :: literal ([dquote] ++ B ">")
  ++ literal sym
  ++ literal (B "DIVIDER</span>")
  ++ [Star (lit nl)].

Definition setup : list (bytes * Language) :=
  map (fun entry =>
         let '(ext, (nm, sym)) := entry in
         (ext, mkLanguage nm sym (compile_commentMatcher sym)
                 (make_dividerText sym) (compile_dividerHTML sym)))
      setupLanguages.

Definition languages : list (bytes * Language) := setup.

Fixpoint lookup (m : list (bytes * Language)) (key : bytes)
  : option Language :=
  match m with
  | [] => None
  | (k, v) :: m' => if bytes_eqb k key then Some v else lookup m' key
  end.

Definition IsPathSeparator (c : byte) : bool := Byte.eqb c "/"%byte.

(** [filepath.Ext]: the suffix of the path from the last dot of its last
    element, empty when that element has no dot. *)
Fixpoint Ext (path : bytes) : bytes :=
  match path with
  | [] => []
  | c :: path' =>
      match Ext path' with
      | (_ :: _) as e => e
      | [] =>
          if existsb IsPathSeparator path' then []
          else if Byte.eqb c "."%byte then path
          else []
      end
  end.

(** [getLanguage]: the map lookup gives the nil pointer on a miss. *)
Definition getLanguage (source : bytes) : option Language :=
  lookup languages (Ext source).

(** ** Panics *)

Inductive panic_value : Type :=
| NilPointerDereference                  (* runtime error *)
| PathError (op : bytes) (path : bytes)  (* a file could not be read *)
| TemplateError.                         (* the template failed *)

Inductive result (A : Type) : Type :=
| Ok (a : A)
| Panic (v : panic_value).
Arguments Ok {A} a.
Arguments Panic {A} v.

(** ** parse *)

Record scan_state : Type := mkScan {
  sections : list Section_;
  hasCode : bool;
  scanCode : bytes;
  scanDocs : bytes
}.

Definition save (secs : list Section_) (docs code : bytes) : list Section_ :=
  secs ++ [mkSection docs code [] []].

(** The body of the [for _, line := range lines] loop. *)
Definition scan_line (language : Language) (st : scan_state) (line : bytes)
  : scan_state :=
  if Match (commentMatcher language) line then
    let st1 :=
      if hasCode st
      then mkScan (save (sections st) (scanDocs st) (scanCode st)) false [] []
      else st in
    mkScan (sections st1) (hasCode st1) (scanCode st1)
           (scanDocs st1 ++ ReplaceAll (commentMatcher language) line []
                     ++ [nl])
  else
    mkScan (sections st) true (scanCode st ++ line ++ [nl]) (scanDocs st).

Definition scan (language : Language) (lines : list bytes) : scan_state :=
  fold_left (scan_line language) lines (mkScan [] false [] []).

Definition parse_lines (language : Language) (lines : list bytes)
  : list Section_ :=
  let st := scan language lines in
  save (sections st) (scanDocs st) (scanCode st).

(** [parse]: the first use of the language, in the first turn of the loop
    (there is always a first line), dereferences the nil pointer when the
    extension is not registered. *)
Definition parse (source code : bytes) : result (list Section_) :=
  let lines := Split code nl in
  match getLanguage source with
  | Some language => Ok (parse_lines language lines)
  | None => Panic NilPointerDereference
  end.

(** ** highlight *)

(** What [highlight] writes to the input pipe of Pygments: one write per
    section for its code, and one write of the divider text after every
    section that has a next one. *)
Inductive chunk : Type :=
| Code (text : bytes)
| Divider (text : bytes).

Definition chunk_bytes (c : chunk) : bytes :=
  match c with
  | Code text => text
  | Divider text => text
  end.

Fixpoint pygments_writes (language : Language) (secs : list Section_)
  : list chunk :=
  match secs with
  | [] => []
  | e :: next =>
      Code (codeText e)
      :: match next with
         | [] => []
         | _ :: _ => [Divider (dividerText language)]
         end
      ++ pygments_writes language next
  end.

Definition pygments_stdin (language : Language) (secs : list Section_)
  : bytes :=
  flat_map chunk_bytes (pygments_writes language secs).

(** The arguments of the [pygmentize] command. *)
Definition pygments_args (language : Language) : list bytes :=
  [B "-l"; name language; B "-f"; B "html"; B "-O"; B "encoding=utf-8"].

(** The two [bytes.Replace] calls that drop the wrapping markup. *)
Definition strip_wrapping (output : bytes) : bytes :=
  Replace (Replace output highlightStart []) highlightEnd [].

Definition wrap (fragment : bytes) : bytes :=
  Join2 highlightStart highlightEnd fragment.

Section Highlight.

(** [blackfriday.MarkdownCommon] *)
Variable MarkdownCommon : bytes -> bytes.

(** The second loop of [highlight]: each section takes the output up to
    the next match of the divider pattern, or all of it when there is
    no match, and the rest of the output goes to the sections after. *)
Fixpoint resplit (language : Language) (output : bytes)
  (secs : list Section_) : list Section_ :=
  match secs with
  | [] => []
  | e :: next =>
      let index :=
        match FindIndex (dividerHTML language) output with
        | Some index => index
        | None => (length output, length output)
        end in
      let fragment := firstn (fst index) output in
      let output' := skipn (snd index) output in
      mkSection (docsText e) (codeText e)
                (MarkdownCommon (docsText e)) (wrap fragment)
      :: resplit language output' next
  end.

End Highlight.

(** ** Paths *)

Fixpoint last_element (path : bytes) : bytes :=
  match path with
  | [] => []
  | c :: path' =>
      if existsb IsPathSeparator path' then last_element path'
      else if IsPathSeparator c then path'
      else path
  end.

(** [filepath.Base] *)
Definition Base (path : bytes) : bytes :=
  match path with
  | [] => B "."
  | _ :: _ =>
      match last_element (rev (dropwhile IsPathSeparator (rev path))) with
      | [] => B "/"
      | (_ :: _) as elem => elem
      end
  end.

(** [strings.LastIndex(s, substr)], from offset [pos] of the text. *)
Fixpoint LastIndex_from (pos : nat) (s substr : bytes) : option nat :=
  match s with
  | [] => match substr with [] => Some pos | _ :: _ => None end
  | _ :: s' =>
      match LastIndex_from (S pos) s' substr with
      | Some i => Some i
      | None => if HasPrefix s substr then Some pos else None
      end
  end.

Definition LastIndex (s substr : bytes) : option nat :=
  LastIndex_from 0 s substr.

(** [destination]: the extension of the base name is a suffix of it, so
    the index is found. *)
Definition destination (source : bytes) : bytes :=
  let base := Base source in
  match LastIndex base (Ext base) with
  | Some i => B "docs/" ++ firstn i base ++ B ".html"
  | None => B "docs/" ++ B ".html"
  end.

(** ** sort.Strings

    Go strings compare byte by byte.  Any correct sort gives the same
    list on a total order whose equivalent elements are equal; the merge
    sort of the standard library stands for it. *)

Fixpoint bytes_leb (a b : bytes) : bool :=
  match a, b with
  | [], _ => true
  | _ :: _, [] => false
  | x :: a', y :: b' =>
      match Nat.compare (Byte.to_nat x) (Byte.to_nat y) with
      | Lt => true
      | Gt => false
      | Eq => bytes_leb a' b'
      end
  end.

Lemma bytes_leb_total (a b : bytes) :
  bytes_leb a b = true \/ bytes_leb b a = true.
Proof.
  revert b; induction a as [|x a IH]; intros [|y b]; simpl; auto.
  rewrite (Nat.compare_antisym (Byte.to_nat x) (Byte.to_nat y)).
  destruct (Nat.compare (Byte.to_nat x) (Byte.to_nat y)); simpl; auto.
Qed.

Module BytesOrder <: TotalLeBool.
Definition t := bytes.
Definition leb := bytes_leb.
Theorem leb_total : forall a1 a2, leb a1 a2 = true \/ leb a2 a1 = true.
Proof. exact bytes_leb_total. Qed.
End BytesOrder.

Module StringsSort := Sort BytesOrder.

Definition sort_Strings (a : list bytes) : list bytes := StringsSort.sort a.

(** ** The world of a run *)

Inductive event : Type :=
| EvMkdirAll (path : bytes)
| EvReadFile (path : bytes)
| EvWriteFile (path data : bytes)
| EvExec (command : bytes) (args : list bytes) (stdin : bytes)
| EvExecuteTemplate (data : TemplateData)
| EvLog (message : list bytes)
| EvLogPanic (v : panic_value).

Record world : Type := mkWorld {
  files : bytes -> option bytes;   (* the file system *)
  sources : list bytes;            (* the global [sources] *)
  trace : list event               (* what was done so far, oldest first *)
}.

Definition IO (A : Type) : Type := world -> result A * world.

Definition ret {A : Type} (a : A) : IO A := fun w => (Ok a, w).

Definition bind {A C : Type} (m : IO A) (k : A -> IO C) : IO C :=
  fun w =>
    match m w with
    | (Ok a, w') => k a w'
    | (Panic v, w') => (Panic v, w')
    end.

Definition panic {A : Type} (v : panic_value) : IO A := fun w => (Panic v, w).

Definition lift {A : Type} (r : result A) : IO A := fun w => (r, w).

Notation "x <- m ;; k" := (bind m (fun x => k))
  (at level 61, m at next level, right associativity).
Notation "m ;;; k" := (bind m (fun _ => k))
  (at level 61, right associativity).

Definition emit (e : event) : IO unit :=
  fun w => (Ok tt, mkWorld (files w) (sources w) (trace w ++ [e])).

(** [ioutil.ReadFile]: the content, or the error. *)
Definition ReadFile (path : bytes) : IO (option bytes) :=
  emit (EvReadFile path) ;;;
  fun w => (Ok (files w path), w).

(** [ioutil.WriteFile]; its error is dropped by every caller. *)
Definition WriteFile (path data : bytes) : IO unit :=
  emit (EvWriteFile path data) ;;;
  fun w =>
    (Ok tt,
     mkWorld (fun p => if bytes_eqb p path then Some data else files w p)
             (sources w) (trace w)).

(** [log.Panic]: the value is printed to the log, then it is the panic. *)
Definition log_Panic {A : Type} (v : panic_value) : IO A :=
  emit (EvLogPanic v) ;;; panic v.

Definition get_sources : IO (list bytes) := fun w => (Ok (sources w), w).

Definition set_sources (l : list bytes) : IO unit :=
  fun w => (Ok tt, mkWorld (files w) l (trace w)).

Section Run.

(** The [pygmentize] process: from its arguments and all of its input to
    all of its output (empty when the process could not be started). *)
Variable pygmentize : list bytes -> bytes -> bytes.
Variable MarkdownCommon : bytes -> bytes.
(** Parsing and running the template text on the data; [None] is an
    error of either step. *)
Variable template_Execute : bytes -> TemplateData -> option bytes.
(** The global [packageLocation] once [main] has set it, and
    [filepath.Join]. *)
Variable packageLocation : bytes.
Variable filepath_Join : bytes -> bytes -> bytes.

Definition highlight (source : bytes) (secs : list Section_)
  : IO (list Section_) :=
  match getLanguage source with
  | None => panic NilPointerDereference
  | Some language =>
      let args := pygments_args language in
      let stdin := pygments_stdin language secs in
      emit (EvExec (B "pygmentize") args stdin) ;;;
      let output := strip_wrapping (pygmentize args stdin) in
      ret (resplit MarkdownCommon language output secs)
  end.

Definition goccoTemplate (data : TemplateData) : IO bytes :=
  let path := filepath_Join packageLocation (B "resources/gocco.got") in
  r <- ReadFile path ;;
  match r with
  | None => panic (PathError (B "open") path)
  | Some text =>
      emit (EvExecuteTemplate data) ;;;
      match template_Execute text data with
      | None => panic TemplateError
      | Some html => ret html
      end
  end.

Fixpoint templateSections (i : Z) (secs : list Section_)
  : list TemplateSection :=
  match secs with
  | [] => []
  | sec :: next =>
      mkTemplateSection (DocsHTML sec) (CodeHTML sec) (i + 1)
      :: templateSections (i + 1) next
  end.

Definition generateHTML (source : bytes) (secs : list Section_) : IO unit :=
  let title := Base source in
  let dest := destination source in
  let sectionsArray := templateSections 0 secs in
  srcs <- get_sources ;;
  html <- goccoTemplate
            (mkTemplateData title sectionsArray srcs (1 <? length srcs)) ;;
  emit (EvLog [B "gocco: "; source; B " -> "; dest]) ;;;
  WriteFile dest html.

Definition generateDocumentation (source : bytes) : IO unit :=
  r <- ReadFile source ;;
  match r with
  | None => log_Panic (PathError (B "open") source)
  | Some code =>
      secs <- lift (parse source code) ;;
      secs' <- highlight source secs ;;
      generateHTML source secs'
  end.

Fixpoint for_each (f : bytes -> IO unit) (l : list bytes) : IO unit :=
  match l with
  | [] => ret tt
  | a :: l' => f a ;;; for_each f l'
  end.

(** [main] from [flag.Parse()] on, with [args] the command line
    arguments that are left.  [flag.Args()] hands out the slice of the
    flag set itself, so [sort.Strings(sources)] sorts what the later
    [flag.Args()] returns as well.  The goroutines, one per file, are
    run here one after the other in the order they are started. *)
Definition main (args : list bytes) : IO unit :=
  let sorted := sort_Strings args in
  set_sources sorted ;;;
  if length sorted <=? 0 then ret tt
  else
    emit (EvMkdirAll (B "docs")) ;;;
    styles <- ReadFile (filepath_Join packageLocation
                                      (B "resources/gocco.css")) ;;
    WriteFile (B "docs/gocco.css")
              (match styles with Some data => data | None => [] end) ;;;
    for_each generateDocumentation sorted.

End Run.

(** * Notions used by the statements *)

(** The language of the one registered extension, as [setup] leaves it. *)
Definition goLanguage : Language :=
  mkLanguage (B "go") (B "//") (compile_commentMatcher (B "//"))
             (make_dividerText (B "//")) (compile_dividerHTML (B "//")).

(** ** Lines of a buffer *)

(** A buffer in which every line was written with a newline after it,
    and the lines of such a buffer. *)
Definition unlines (ls : list bytes) : bytes :=
  flat_map (fun l => l ++ [nl]) ls.

Definition buffer_lines (buf : bytes) : list bytes :=
  removelast (Split buf nl).

Definition ends_with_newline (buf : bytes) : Prop :=
  exists front, buf = front ++ [nl].

Definition newline_terminated (buf : bytes) : Prop :=
  buf = [] \/ ends_with_newline buf.

(** The lines that the sections stand for, in order: for each section the
    lines of its documentation, each changed by [g] (which puts a comment
    prefix back), then the lines of its code. *)
Definition reassemble_with (g : bytes -> bytes) (secs : list Section_)
  : list bytes :=
  flat_map (fun sec => map g (buffer_lines (docsText sec))
                       ++ buffer_lines (codeText sec)) secs.

Definition reassemble (prefix : bytes) : list Section_ -> list bytes :=
  reassemble_with (fun doc => prefix ++ doc).

(** What [parse] keeps of a line: a comment line loses what the comment
    matcher matched. *)
Definition strip_comment (language : Language) (line : bytes) : bytes :=
  if Match (commentMatcher language) line
  then ReplaceAll (commentMatcher language) line []
  else line.

(** A line as it comes back: a comment line is stripped by [parse] and
    then changed by [g]. *)
Definition back (language : Language) (g : bytes -> bytes) (line : bytes)
  : bytes :=
  if Match (commentMatcher language) line
  then g (ReplaceAll (commentMatcher language) line [])
  else line.

(** The number of places in the lines where a comment line comes right
    after a code line; [prev_code] tells whether the line before the
    first was code. *)
Fixpoint transitions (language : Language) (prev_code : bool)
  (lines : list bytes) : nat :=
  match lines with
  | [] => 0
  | l :: r =>
      let c := Match (commentMatcher language) l in
      (if prev_code && c then 1 else 0) + transitions language (negb c) r
  end.

(** A state of the scan with the sections [front] before its own. *)
Definition with_front (front : list Section_) (st : scan_state)
  : scan_state :=
  mkScan (front ++ sections st) (hasCode st) (scanCode st) (scanDocs st).

(** A text without its first byte, when that byte is white space. *)
Definition drop_space (s : bytes) : bytes :=
  match s with
  | [] => []
  | c :: s' => if is_space c then s' else s
  end.

(** ** What is sent to the highlighter *)



Fixpoint join_with (sep : bytes) (texts : list bytes) : bytes :=
  match texts with
  | [] => []
  | text :: next =>
      match next with
      | [] => text
      | _ :: _ => text ++ sep ++ join_with sep next
      end
  end.

(** ** What comes back from the highlighter *)

(** A section after [highlight], when [fragment] is its piece of the
    output. *)
Definition highlighted (md : bytes -> bytes) (fragment : bytes)
  (e : Section_) : Section_ :=
  mkSection (docsText e) (codeText e) (md (docsText e)) (wrap fragment).

(** The highlighted form of the divider that the divider pattern looks
    for: the symbol and DIVIDER in a span of class [c1]. *)
Definition dividerSpan (language : Language) : bytes :=
  B "<span class=" ++ [dquote] ++ B "c1" ++ [dquote] ++ B ">"
    ++ symbol language ++ B "DIVIDER</span>".

(** The divider line as the highlighter shows it. *)
Definition rendered_divider (language : Language) : bytes :=
  [nl] ++ dividerSpan language ++ [nl].

(** The output of a highlighter that passes the code through, shows each
    divider line in its highlighted form and wraps the whole. *)
Definition rendered_output (language : Language) (secs : list Section_)
  : bytes :=
  highlightStart
    ++ join_with (rendered_divider language) (map codeText secs)
    ++ highlightEnd.

Definition trim_left_newlines (s : bytes) : bytes := dropwhile (lit nl) s.

Fixpoint trim_right_newlines (s : bytes) : bytes :=
  match s with
  | [] => []
  | c :: s' =>
      match trim_right_newlines s' with
      | [] => if lit nl c then [] else [c]
      | (_ :: _) as t => c :: t
      end
  end.


(** Code without the byte [<], which opens all markup. *)
Definition no_markup (e : Section_) : Prop := ~ In lt_sign (codeText e).

(** The synthetic highlighter of the round trip test: what it is sent,
    in the wrapping markup. *)
Definition identity_highlighter (args : list bytes) (stdin : bytes) : bytes :=
  highlightStart ++ stdin ++ highlightEnd.

(** A highlighter that passes the code through and shows the divider
    comment as Pygments does. *)
Definition span_highlighter (args : list bytes) (stdin : bytes) : bytes :=
  highlightStart
    ++ Replace stdin (B "//DIVIDER") (dividerSpan goLanguage)
    ++ highlightEnd.

(** The pieces [fs] with the gaps [gaps] after them, in order. *)
Fixpoint weave (fs gaps : list bytes) : bytes :=
  match fs, gaps with
  | f :: fs', g :: gaps' => f ++ g ++ weave fs' gaps'
  | _, _ => []
  end.

(** ** The divider pattern, taken apart *)

Definition span_open : bytes := B "span class=" ++ [dquote] ++ B "c".
Definition span_close : bytes := [dquote] ++ B ">//DIVIDER</span>".

(** The divider pattern of Go after its first [\n*]. *)
Definition divider_rest : Regexp :=
  One (lit lt_sign)
  :: literal span_open ++ Opt (lit "1"%byte)
  :: literal span_close ++ [Star (lit nl)].



(** The pieces cut from the text [x], a span, and the texts [rest] with a
    span between two of them. *)
Fixpoint pieces (x : bytes) (rest : list bytes) : list bytes :=
  match rest with
  | [] => [x]
  | y :: r => trim_right_newlines x :: pieces (trim_left_newlines y) r
  end.

(** ** The document models in a trace *)



Fixpoint template_events (tr : list event) : list TemplateData :=
  match tr with
  | [] => []
  | EvExecuteTemplate data :: tr' => data :: template_events tr'
  | _ :: tr' => template_events tr'
  end.

(** ** Sample inputs *)

(** Two sections, as [parse] gives them for the four lines without the
    last newline. *)
Definition two_sections : list Section_ :=
  [mkSection (B "a" ++ [nl]) (B "x" ++ [nl]) [] [];
   mkSection (B "b" ++ [nl]) (B "y" ++ [nl]) [] []].

Definition sample_markdown (docs : bytes) : bytes :=
  B "<p>" ++ docs ++ B "</p>".

Definition sample_template (text : bytes) (data : TemplateData)
  : option bytes := Some text.

Definition sample_Join (dir file : bytes) : bytes := dir ++ B "/" ++ file.

Definition empty_world : world := mkWorld (fun _ => None) [] [].

(** A world in which the file [a.xyz] is there, and nothing else. *)
Definition xyz_world : world :=
  mkWorld (fun p => if bytes_eqb p (B "a.xyz") then Some (B "x") else None)
          [] [].


(** A world with two Go files and the template. *)
Definition two_files_world : world :=
  mkWorld (fun p =>
             if bytes_eqb p (B "b.go") then Some (B "// b")
             else if bytes_eqb p (B "src/a.go") then Some (B "x")
             else if bytes_eqb p (B "/usr/resources/gocco.got")
                  then Some (B "page")
             else None)
          [] [].

(** * Proofs *)

(** ** Bytes and lists *)

Lemma Byte_eqb_refl (c : byte) : Byte.eqb c c = true.
Proof. now apply Byte.byte_dec_lb. Qed.

Lemma Byte_eqb_eq (a b : byte) : Byte.eqb a b = true <-> a = b.
Proof. split; [apply Byte.byte_dec_bl | apply Byte.byte_dec_lb]. Qed.

Lemma Byte_eqb_neq (a b : byte) : Byte.eqb a b = false <-> a <> b.
Proof.
  split.
  - apply Byte.eqb_false.
  - intro H. destruct (Byte.eqb a b) eqn:E; [|reflexivity].
    apply Byte_eqb_eq in E. contradiction.
Qed.

Lemma bytes_eqb_eq (a b : bytes) : bytes_eqb a b = true <-> a = b.
Proof.
  revert b; induction a as [|x a IH]; intros [|y b]; simpl;
    try (split; [discriminate | congruence]); try tauto.
  rewrite andb_true_iff, Byte_eqb_eq, IH. split.
  - intros [-> ->]; reflexivity.
  - intros H; injection H; auto.
Qed.

Lemma Split_nonempty (s : bytes) (sep : byte) : Split s sep <> [].
Proof.
  destruct s as [|c s]; simpl; [discriminate|].
  destruct (Byte.eqb c sep); [discriminate|].
  destruct (Split s sep); discriminate.
Qed.

Lemma Split_no_sep (s : bytes) (sep : byte) :
  Forall (fun piece => ~ In sep piece) (Split s sep).
Proof.
  induction s as [|c s IH]; simpl.
  - constructor; auto.
  - destruct (Byte.eqb c sep) eqn:E.
    + constructor; auto.
    + destruct (Split s sep) as [|piece pieces].
      * constructor; auto. simpl. intros [H|[]].
        apply Byte_eqb_neq in E. auto.
      * inversion IH; subst. constructor; auto.
        simpl. intros [H|H]; [|auto].
        apply Byte_eqb_neq in E. auto.
Qed.

Lemma Split_line (l rest : bytes) :
  ~ In nl l -> Split (l ++ nl :: rest) nl = l :: Split rest nl.
Proof.
  induction l as [|c l IH]; simpl; intros H.
  - reflexivity.
  - destruct (Byte.eqb c nl) eqn:E.
    + apply Byte_eqb_eq in E. subst. tauto.
    + rewrite IH by tauto. reflexivity.
Qed.

Lemma unlines_cons (l : bytes) (ls : list bytes) :
  unlines (l :: ls) = l ++ nl :: unlines ls.
Proof. unfold unlines. simpl. now rewrite <- app_assoc. Qed.

Lemma Split_unlines (ls : list bytes) :
  Forall (fun l => ~ In nl l) ls -> Split (unlines ls) nl = ls ++ [[]].
Proof.
  induction 1 as [|l ls Hl _ IH].
  - reflexivity.
  - rewrite unlines_cons, Split_line, IH by assumption. reflexivity.
Qed.

Lemma buffer_lines_unlines (ls : list bytes) :
  Forall (fun l => ~ In nl l) ls -> buffer_lines (unlines ls) = ls.
Proof.
  intros H. unfold buffer_lines. rewrite Split_unlines by assumption.
  apply removelast_last.
Qed.

Lemma unlines_app (a b : list bytes) :
  unlines (a ++ b) = unlines a ++ unlines b.
Proof. unfold unlines. apply flat_map_app. Qed.

Lemma unlines_one (l : bytes) : unlines [l] = l ++ [nl].
Proof. unfold unlines. simpl. now rewrite app_nil_r. Qed.

(** ** The patterns at work *)

Example commentMatcher_examples :
  Match (commentMatcher goLanguage) (B "// a") = true
  /\ ReplaceAll (commentMatcher goLanguage) (B "// a") [] = B "a"
  /\ ReplaceAll (commentMatcher goLanguage) (B "  //a") [] = B "a"
  /\ ReplaceAll (commentMatcher goLanguage)
                ([x09] ++ B "// " ++ [x09] ++ B "a") [] = [x09] ++ B "a"
  /\ ReplaceAll (commentMatcher goLanguage) (B "//// a") [] = B "// a"
  /\ Match (commentMatcher goLanguage) (B "x // c") = false
  /\ Match (commentMatcher goLanguage) (B "/ /") = false
  /\ Match (commentMatcher goLanguage) [] = false.
Proof. repeat split; vm_compute; reflexivity. Qed.

Example dividerHTML_examples :
  FindIndex (dividerHTML goLanguage)
            (B "x" ++ [nl; nl] ++ dividerSpan goLanguage ++ [nl] ++ B "y")
  = Some (1, 37)
  /\ FindIndex (dividerHTML goLanguage)
               (B "x<span class=" ++ [dquote] ++ B "c" ++ [dquote]
                  ++ B ">//DIVIDER</span>y")
     = Some (1, 33)
  /\ FindIndex (dividerHTML goLanguage)
               (B "x" ++ dividerText goLanguage ++ B "y") = None.
Proof. repeat split; vm_compute; reflexivity. Qed.

Example destination_examples :
  destination (B "src/main.go") = B "docs/main.html"
  /\ destination (B "a") = B "docs/a.html"
  /\ Ext (B "a.b/c") = []
  /\ Ext (B "x.tar.gz") = B ".gz"
  /\ Base (B "a/b//") = B "b".
Proof. repeat split; vm_compute; reflexivity. Qed.

(** ** The scan of [parse] *)

Lemma scan_snoc (language : Language) (lines : list bytes) (line : bytes) :
  scan language (lines ++ [line])
  = scan_line language (scan language lines) line.
Proof. unfold scan. now rewrite fold_left_app. Qed.

Lemma scan_invariant (language : Language) (P : scan_state -> Prop) :
  P (mkScan [] false [] []) ->
  (forall st line, P st -> P (scan_line language st line)) ->
  forall lines, P (scan language lines).
Proof.
  intros H0 Hstep lines. induction lines as [|line lines IH] using rev_ind.
  - exact H0.
  - rewrite scan_snoc. now apply Hstep.
Qed.

Lemma getLanguage_go (source : bytes) (language : Language) :
  getLanguage source = Some language -> language = goLanguage.
Proof.
  unfold getLanguage. generalize (Ext source) as ext. intros ext.
  unfold languages, setup, setupLanguages. cbn [map lookup].
  destruct (bytes_eqb (B ".go") ext); [|discriminate].
  intros H; injection H as <-. reflexivity.
Qed.

Lemma parse_ok (source code : bytes) (language : Language) :
  getLanguage source = Some language ->
  parse source code = Ok (parse_lines language (Split code nl)).
Proof. intros H. unfold parse. now rewrite H. Qed.

(** ** The closing section *)

Lemma scan_keeps_all (language : Language) (lines : list bytes) :
  let st := scan language lines in
  flat_map docsText (sections st) ++ scanDocs st
  = unlines (map (strip_comment language)
                 (filter (Match (commentMatcher language)) lines))
  /\ flat_map codeText (sections st) ++ scanCode st
     = unlines (filter (fun l => negb (Match (commentMatcher language) l))
                       lines).
Proof.
  induction lines as [|line lines IH] using rev_ind.
  - split; reflexivity.
  - cbv zeta in *. rewrite scan_snoc. destruct IH as [IHd IHc].
    rewrite !filter_app, map_app, !unlines_app. rewrite <- IHd, <- IHc.
    unfold scan_line, strip_comment. cbn [filter map].
    destruct (Match (commentMatcher language) line) eqn:M; cbn [negb map].
    + rewrite M, unlines_one.
      destruct (hasCode (scan language lines));
        cbn [sections scanDocs scanCode hasCode];
        unfold save; rewrite ?flat_map_app; cbn [flat_map docsText codeText];
        rewrite ?app_nil_r, <- ?app_assoc; split; reflexivity.
    + cbn [sections scanDocs scanCode hasCode]. rewrite unlines_one.
      rewrite ?app_nil_r, <- ?app_assoc. split; reflexivity.
Qed.

(** C7: after the scan [parse] always closes with one more section made
    of the two buffers as they then are, whatever they hold; so it returns
    at least one section (also for no line at all), and the documentation
    and the code of all sections together are all comment lines and all
    code lines of the input: nothing at the end is dropped. *)
Theorem parse_emits_closing_section
  (source code : bytes) (language : Language) :
  getLanguage source = Some language ->
  let lines := Split code nl in
  let st := scan language lines in
  exists secs,
    parse source code = Ok secs
    /\ secs = sections st ++ [mkSection (scanDocs st) (scanCode st) [] []]
    /\ 1 <= length secs
    /\ parse_lines language [] = [mkSection [] [] [] []]
    /\ flat_map docsText secs
       = unlines (map (strip_comment language)
                      (filter (Match (commentMatcher language)) lines))
    /\ flat_map codeText secs
       = unlines (filter (fun l => negb (Match (commentMatcher language) l))
                         lines).
Proof.
  intros Hlang lines st.
  exists (sections st ++ [mkSection (scanDocs st) (scanCode st) [] []]).
  split; [apply (parse_ok _ code _ Hlang)|].
  split; [reflexivity|].
  split; [rewrite length_app; simpl; lia|].
  split; [reflexivity|].
  destruct (scan_keeps_all language lines) as [Hd Hc].
  rewrite !flat_map_app. cbn [flat_map docsText codeText].
  rewrite !app_nil_r. split; assumption.
Qed.

Lemma parse_emits_closing_section_witness :
  getLanguage (B "a.go") = Some goLanguage
  /\ let lines := Split [] nl in
     let st := scan goLanguage lines in
     exists secs,
       parse (B "a.go") [] = Ok secs
       /\ secs = sections st ++ [mkSection (scanDocs st) (scanCode st) [] []]
       /\ 1 <= length secs
       /\ parse_lines goLanguage [] = [mkSection [] [] [] []]
       /\ flat_map docsText secs
          = unlines (map (strip_comment goLanguage)
                         (filter (Match (commentMatcher goLanguage)) lines))
       /\ flat_map codeText secs
          = unlines (filter
                       (fun l => negb (Match (commentMatcher goLanguage) l))
                       lines).
Proof.
  split; [reflexivity|].
  apply (parse_emits_closing_section (B "a.go") [] goLanguage). reflexivity.
Defined.

(** The empty file has one line, the empty one, and it is code. *)
Example parse_empty_file :
  parse (B "a.go") [] = Ok [mkSection [] [nl] [] []].
Proof. reflexivity. Qed.

(** ** Sections closed during the scan have code *)

Lemma scan_sections_have_code (language : Language) (lines : list bytes) :
  let st := scan language lines in
  (forall sec, In sec (sections st) -> codeText sec <> [])
  /\ (hasCode st = true -> scanCode st <> []).
Proof.
  apply scan_invariant with
    (P := fun st => (forall sec, In sec (sections st) -> codeText sec <> [])
                    /\ (hasCode st = true -> scanCode st <> [])).
  - split; [intros sec []|discriminate].
  - intros st line [Hsecs Hcode]. unfold scan_line.
    destruct (Match (commentMatcher language) line).
    + destruct (hasCode st) eqn:Hc; cbn [sections hasCode scanCode].
      * split; [|discriminate]. unfold save. intros sec Hin.
        apply in_app_or in Hin. destruct Hin as [Hin|[<-|[]]]; auto.
      * split; [exact Hsecs|]. rewrite Hc. discriminate.
    + cbn [sections hasCode scanCode]. split; [exact Hsecs|].
      intros _ H. apply app_eq_nil in H. destruct H as [_ H].
      apply app_eq_nil in H. destruct H as [_ H]. discriminate.
Qed.

(** C9: every section that [parse] returns, except the last, has code
    that is not empty. *)
Theorem parse_inner_sections_have_code
  (source code : bytes) (language : Language) :
  getLanguage source = Some language ->
  exists secs,
    parse source code = Ok secs
    /\ forall sec, In sec (removelast secs) -> codeText sec <> [].
Proof.
  intros Hlang. eexists. split; [apply (parse_ok _ code _ Hlang)|].
  unfold parse_lines, save. rewrite removelast_last.
  apply scan_sections_have_code.
Qed.

Lemma parse_inner_sections_have_code_witness :
  getLanguage (B "a.go") = Some goLanguage
  /\ exists secs,
       parse (B "a.go") (B "x" ++ [nl] ++ B "// b") = Ok secs
       /\ forall sec, In sec (removelast secs) -> codeText sec <> [].
Proof.
  split; [reflexivity|].
  apply (parse_inner_sections_have_code
           (B "a.go") (B "x" ++ [nl] ++ B "// b") goLanguage).
  reflexivity.
Defined.

(** ** Buffers end with a newline *)

Lemma newline_terminated_write (buf line : bytes) :
  newline_terminated (buf ++ line ++ [nl]).
Proof. right. exists (buf ++ line). now rewrite <- app_assoc. Qed.

Lemma scan_buffers_terminated (language : Language) (lines : list bytes) :
  let st := scan language lines in
  (forall sec, In sec (sections st) ->
     newline_terminated (docsText sec) /\ newline_terminated (codeText sec))
  /\ newline_terminated (scanDocs st)
  /\ newline_terminated (scanCode st).
Proof.
  apply scan_invariant with
    (P := fun st =>
       (forall sec, In sec (sections st) ->
          newline_terminated (docsText sec)
          /\ newline_terminated (codeText sec))
       /\ newline_terminated (scanDocs st)
       /\ newline_terminated (scanCode st)).
  - repeat split; try (now left); contradiction.
  - intros st line (Hsecs & Hdocs & Hcode). unfold scan_line.
    destruct (Match (commentMatcher language) line).
    + destruct (hasCode st); cbn [sections hasCode scanCode scanDocs].
      * repeat split; try (now left); try apply newline_terminated_write;
          unfold save in H; apply in_app_or in H;
          destruct H as [H|[<-|[]]]; try (now apply Hsecs); assumption.
      * repeat split; try apply newline_terminated_write;
          try assumption; now apply Hsecs.
    + cbn [sections hasCode scanCode scanDocs].
      repeat split; try apply newline_terminated_write;
        try assumption; now apply Hsecs.
Qed.

(** C10: in every section that [parse] returns, the documentation text
    and the code text are each empty or end with a newline byte. *)
Theorem parse_texts_newline_terminated
  (source code : bytes) (language : Language) :
  getLanguage source = Some language ->
  exists secs,
    parse source code = Ok secs
    /\ forall sec, In sec secs ->
         (docsText sec = [] \/ exists front, docsText sec = front ++ [nl])
         /\ (codeText sec = [] \/ exists front, codeText sec = front ++ [nl]).
Proof.
  intros Hlang. eexists. split; [apply (parse_ok _ code _ Hlang)|].
  destruct (scan_buffers_terminated language (Split code nl))
    as (Hsecs & Hdocs & Hcode).
  unfold parse_lines, save. intros sec Hin. apply in_app_or in Hin.
  destruct Hin as [Hin|[<-|[]]].
  - now apply Hsecs.
  - split; assumption.
Qed.

Lemma parse_texts_newline_terminated_witness :
  getLanguage (B "a.go") = Some goLanguage
  /\ exists secs,
       parse (B "a.go") (B "x" ++ [nl] ++ B "// b") = Ok secs
       /\ forall sec, In sec secs ->
            (docsText sec = [] \/ exists front, docsText sec = front ++ [nl])
            /\ (codeText sec = []
                \/ exists front, codeText sec = front ++ [nl]).
Proof.
  split; [reflexivity|].
  apply (parse_texts_newline_terminated
           (B "a.go") (B "x" ++ [nl] ++ B "// b") goLanguage).
  reflexivity.
Defined.

(** ** Putting the lines back together *)

Lemma ReplaceAll_from_subset (re : Regexp) (c : byte) (src : bytes) :
  forall pos skip, In c (ReplaceAll_from re [] pos skip src) -> In c src.
Proof.
  induction src as [|d src IH]; intros pos skip; simpl; [tauto|].
  destruct skip as [|k].
  - destruct (match_here re (pos =? 0) (d :: src)) as [[|n]|]; simpl.
    + intros [H|H]; [now left | right; eapply IH; eassumption].
    + intros H. right. eapply IH; eassumption.
    + intros [H|H]; [now left | right; eapply IH; eassumption].
  - intros H. right. eapply IH; eassumption.
Qed.

Lemma strip_comment_no_newline (language : Language) (line : bytes) :
  ~ In nl line ->
  ~ In nl (ReplaceAll (commentMatcher language) line []).
Proof.
  intros H Hin. apply H. unfold ReplaceAll in Hin.
  eapply ReplaceAll_from_subset; eassumption.
Qed.

Lemma reassemble_with_app (g : bytes -> bytes) (a b : list Section_) :
  reassemble_with g (a ++ b) = reassemble_with g a ++ reassemble_with g b.
Proof. unfold reassemble_with. apply flat_map_app. Qed.

Section Reassemble.

Variable language : Language.
Variable g : bytes -> bytes.

Lemma scan_reassemble (lines : list bytes) :
  Forall (fun l => ~ In nl l) lines ->
  let st := scan language lines in
  exists dl cl,
    scanDocs st = unlines dl /\ scanCode st = unlines cl
    /\ Forall (fun l => ~ In nl l) dl /\ Forall (fun l => ~ In nl l) cl
    /\ (hasCode st = false -> cl = [])
    /\ reassemble_with g (sections st) ++ map g dl ++ cl
       = map (back language g) lines.
Proof.
  induction lines as [|line lines IH] using rev_ind; intros Hnl.
  - exists [], []. repeat split; auto.
  - apply Forall_app in Hnl. destruct Hnl as [Hnl Hline].
    inversion Hline as [|? ? Hl _]; subst.
    destruct (IH Hnl) as (dl & cl & Hd & Hc & Fd & Fc & Hno & Hre).
    cbv zeta. rewrite scan_snoc, map_app. cbn [map].
    rewrite <- Hre. unfold scan_line, back.
    destruct (Match (commentMatcher language) line) eqn:M.
    + destruct (hasCode (scan language lines)) eqn:HC;
        cbn [sections hasCode scanCode scanDocs].
      * exists [ReplaceAll (commentMatcher language) line []], [].
        split; [now rewrite unlines_one|].
        split; [reflexivity|].
        split; [constructor; auto; now apply strip_comment_no_newline|].
        split; [constructor|].
        split; [reflexivity|].
        unfold save. rewrite reassemble_with_app.
        unfold reassemble_with at 2. cbn [flat_map docsText codeText].
        rewrite Hd, Hc, !buffer_lines_unlines by assumption.
        cbn [map]. rewrite !app_nil_r, <- !app_assoc. reflexivity.
      * exists (dl ++ [ReplaceAll (commentMatcher language) line []]), cl.
        split; [now rewrite unlines_app, unlines_one, Hd|].
        split; [assumption|].
        split; [apply Forall_app; split; auto; constructor; auto;
                now apply strip_comment_no_newline|].
        split; [assumption|].
        split; [intros _; exact (Hno eq_refl)|].
        rewrite (Hno eq_refl), map_app. cbn [map].
        rewrite !app_nil_r, <- !app_assoc. reflexivity.
    + cbn [sections hasCode scanCode scanDocs].
      exists dl, (cl ++ [line]).
      split; [assumption|].
      split; [now rewrite unlines_app, unlines_one, Hc|].
      split; [assumption|].
      split; [apply Forall_app; split; auto|].
      split; [discriminate|].
      rewrite <- !app_assoc. reflexivity.
Qed.

Lemma parse_lines_reassemble (lines : list bytes) :
  Forall (fun l => ~ In nl l) lines ->
  reassemble_with g (parse_lines language lines) = map (back language g) lines.
Proof.
  intros Hnl.
  destruct (scan_reassemble lines Hnl)
    as (dl & cl & Hd & Hc & Fd & Fc & _ & Hre).
  unfold parse_lines, save. rewrite reassemble_with_app, <- Hre.
  unfold reassemble_with at 2. cbn [flat_map docsText codeText].
  rewrite Hd, Hc, !buffer_lines_unlines by assumption.
  rewrite app_nil_r. reflexivity.
Qed.

End Reassemble.

(** C3, as the code has it: [parse] returns at least one section, and the
    documentation lines then the code lines of each section, in order, are
    the lines of the file with each comment line stripped of what the
    comment matcher matched (the white space before the symbol, the symbol
    and one white space byte after it, when there is one).  Putting a
    fixed prefix back before each documentation line gives the lines of
    the file when every comment line of the file is that prefix followed
    by its stripped text. *)
Theorem parse_round_trip (source code : bytes) (language : Language) :
  getLanguage source = Some language ->
  exists secs,
    parse source code = Ok secs
    /\ 1 <= length secs
    /\ reassemble [] secs = map (strip_comment language) (Split code nl)
    /\ forall prefix,
         (forall line, In line (Split code nl) ->
            Match (commentMatcher language) line = true ->
            line = prefix ++ ReplaceAll (commentMatcher language) line []) ->
         reassemble prefix secs = Split code nl.
Proof.
  intros Hlang. eexists. split; [apply (parse_ok _ code _ Hlang)|].
  split; [unfold parse_lines, save; rewrite length_app; simpl; lia|].
  pose proof (Split_no_sep code nl) as Hnl.
  split.
  - unfold reassemble. rewrite parse_lines_reassemble by assumption.
    reflexivity.
  - intros prefix Hprefix. unfold reassemble.
    rewrite parse_lines_reassemble by assumption.
    rewrite <- (map_id (Split code nl)) at 2.
    apply map_ext_in. intros line Hin. unfold back.
    destruct (Match (commentMatcher language) line) eqn:M; [|reflexivity].
    symmetry. now apply Hprefix.
Qed.

Lemma parse_round_trip_witness :
  getLanguage (B "a.go") = Some goLanguage
  /\ exists secs,
       parse (B "a.go") (B "// a" ++ [nl] ++ B "x") = Ok secs
       /\ 1 <= length secs
       /\ reassemble [] secs
          = map (strip_comment goLanguage)
                (Split (B "// a" ++ [nl] ++ B "x") nl)
       /\ forall prefix,
            (forall line, In line (Split (B "// a" ++ [nl] ++ B "x") nl) ->
               Match (commentMatcher goLanguage) line = true ->
               line = prefix
                      ++ ReplaceAll (commentMatcher goLanguage) line []) ->
            reassemble prefix secs = Split (B "// a" ++ [nl] ++ B "x") nl.
Proof.
  split; [reflexivity|].
  apply (parse_round_trip (B "a.go") (B "// a" ++ [nl] ++ B "x") goLanguage).
  reflexivity.
Defined.

(** The two lines [//a] and [ //a] are parsed to the same section, so no
    prefix put back before the documentation gives both of them. *)
Lemma parse_round_trip_fails :
  ~ exists prefix,
      forall code secs,
        parse (B "a.go") code = Ok secs ->
        reassemble prefix secs = Split code nl.
Proof.
  intros [prefix H].
  assert (H1 : parse (B "a.go") (B "//a")
               = Ok [mkSection (B "a" ++ [nl]) [] [] []])
    by (vm_compute; reflexivity).
  assert (H2 : parse (B "a.go") (B " //a")
               = Ok [mkSection (B "a" ++ [nl]) [] [] []])
    by (vm_compute; reflexivity).
  apply H in H1. apply H in H2. rewrite H1 in H2.
  vm_compute in H2. discriminate H2.
Qed.

(** With the prefix [// ] the lines of a file whose comment lines all
    begin with it come back as they were. *)
Example reassemble_four_lines :
  forall secs,
    parse (B "a.go")
          (B "// a" ++ [nl] ++ B "x" ++ [nl] ++ B "// b" ++ [nl] ++ B "y"
             ++ [nl]) = Ok secs ->
    reassemble (B "// ") secs
    = [B "// a"; B "x"; B "// b"; B "y"; []].
Proof.
  intros secs H. vm_compute in H. injection H as <-.
  vm_compute. reflexivity.
Qed.

(** ** The four lines *)

(** C6, as the code has it: the text [// a], [x], [// b], [y] with a
    newline after each line is split into two sections; the first has the
    documentation [a] and the code [x], each with its newline; the second
    has the documentation [b] with its newline and the code [y] followed
    by two newlines, since the empty piece after the last newline is
    scanned as one more line of code.  Without the last newline of the
    text the code of the second section is [y] with one newline. *)
Theorem parse_four_lines :
  parse (B "a.go")
        (B "// a" ++ [nl] ++ B "x" ++ [nl] ++ B "// b" ++ [nl] ++ B "y"
           ++ [nl])
  = Ok [mkSection (B "a" ++ [nl]) (B "x" ++ [nl]) [] [];
        mkSection (B "b" ++ [nl]) (B "y" ++ [nl; nl]) [] []]
  /\ parse (B "a.go")
           (B "// a" ++ [nl] ++ B "x" ++ [nl] ++ B "// b" ++ [nl] ++ B "y")
     = Ok [mkSection (B "a" ++ [nl]) (B "x" ++ [nl]) [] [];
           mkSection (B "b" ++ [nl]) (B "y" ++ [nl]) [] []].
Proof. split; vm_compute; reflexivity. Qed.

(** The sections of the four lines are not the two that the scenario
    names. *)
Lemma parse_four_lines_differs :
  ~ exists secs,
      parse (B "a.go")
            (B "// a" ++ [nl] ++ B "x" ++ [nl] ++ B "// b" ++ [nl] ++ B "y"
               ++ [nl]) = Ok secs
      /\ map (fun sec => (docsText sec, codeText sec)) secs
         = [(B "a" ++ [nl], B "x" ++ [nl]); (B "b" ++ [nl], B "y" ++ [nl])].
Proof.
  intros (secs & Hparse & Hsecs).
  vm_compute in Hparse. injection Hparse as <-.
  vm_compute in Hsecs. discriminate Hsecs.
Qed.

(** ** highlight: what it changes *)

Lemma highlight_ok (pyg : list bytes -> bytes -> bytes) (md : bytes -> bytes)
  (source : bytes) (secs : list Section_) (language : Language) (w : world) :
  getLanguage source = Some language ->
  highlight pyg md source secs w
  = (Ok (resplit md language
           (strip_wrapping (pyg (pygments_args language)
                                (pygments_stdin language secs))) secs),
     mkWorld (files w) (sources w)
       (trace w ++ [EvExec (B "pygmentize") (pygments_args language)
                           (pygments_stdin language secs)])).
Proof. intros H. unfold highlight. rewrite H. reflexivity. Qed.



(** ** highlight: a divider that is not found *)

Lemma FindIndex_dividerHTML_nil :
  FindIndex (dividerHTML goLanguage) [] = None.
Proof. reflexivity. Qed.

Lemma resplit_nil_output (md : bytes -> bytes) (secs : list Section_) :
  resplit md goLanguage [] secs = map (highlighted md []) secs.
Proof.
  induction secs as [|e next IH]; [reflexivity|].
  cbn [resplit map]. rewrite FindIndex_dividerHTML_nil.
  cbn [fst snd length firstn skipn]. rewrite IH. reflexivity.
Qed.

(** C2, as the code has it: [highlight] has no failure of its own.  For
    a registered language it returns normally whatever the output of
    Pygments is; at a section, the last or not, for which the divider
    pattern finds no match, that section takes all of the output that is
    left, and every section after it takes the empty piece, each put in
    the wrapping markup. *)
Theorem highlight_missing_divider (pyg : list bytes -> bytes -> bytes)
  (md : bytes -> bytes) (source : bytes) (secs : list Section_)
  (language : Language) (w : world) :
  getLanguage source = Some language ->
  (exists w',
     highlight pyg md source secs w
     = (Ok (resplit md language
              (strip_wrapping (pyg (pygments_args language)
                                   (pygments_stdin language secs))) secs),
        w'))
  /\ forall output e next,
       FindIndex (dividerHTML language) output = None ->
       resplit md language output (e :: next)
       = highlighted md output e :: map (highlighted md []) next.
Proof.
  intros H. split.
  - eexists. apply (highlight_ok pyg md _ secs _ w H).
  - apply getLanguage_go in H. subst language.
    intros output e next Hnone. cbn [resplit]. rewrite Hnone.
    cbn [fst snd]. rewrite firstn_all, skipn_all, resplit_nil_output.
    reflexivity.
Qed.

(** ** The divider pattern on text without markup *)

Lemma lit_refl (c : byte) : lit c c = true.
Proof. apply Byte_eqb_refl. Qed.


Lemma lit_false (c d : byte) : lit c d = false <-> d <> c.
Proof. unfold lit. rewrite Byte_eqb_neq. split; congruence. Qed.

Lemma prefer_None_r (a : option nat) : prefer a None = a.
Proof. now destruct a. Qed.

Lemma match_here_Star (cls : byte -> bool) (re : Regexp) (bot : bool)
  (s : bytes) :
  match_here (Star cls :: re) bot s
  = match s with
    | c :: s' =>
        if cls c
        then prefer (option_map S (match_here (Star cls :: re) false s'))
                    (match_here re bot s)
        else match_here re bot s
    | [] => match_here re bot s
    end.
Proof. destruct s; reflexivity. Qed.

Lemma match_here_literal (k : bytes) (re : Regexp) (t : bytes) :
  forall bot,
    match_here (literal k ++ re) bot (k ++ t)
    = option_map (Nat.add (length k))
        (match_here re (match k with [] => bot | _ :: _ => false end) t).
Proof.
  induction k as [|c k IH]; intros bot.
  - cbn [literal map app length]. now destruct (match_here re bot t).
  - cbn [literal map app length match_here]. rewrite lit_refl.
    fold (literal k). rewrite IH.
    destruct k; destruct (match_here re false t); reflexivity.
Qed.



Lemma dividerHTML_go :
  dividerHTML goLanguage = Star (lit nl) :: divider_rest.
Proof. reflexivity. Qed.


Lemma divider_rest_other (bot : bool) (c : byte) (s : bytes) :
  c <> lt_sign -> match_here divider_rest bot (c :: s) = None.
Proof.
  intros H. unfold divider_rest. cbn [match_here].
  apply lit_false in H. now rewrite H.
Qed.

Lemma divider_rest_nil (bot : bool) : match_here divider_rest bot [] = None.
Proof. reflexivity. Qed.

Lemma divider_no_markup (v : bytes) :
  ~ In lt_sign v ->
  forall bot, match_here (Star (lit nl) :: divider_rest) bot v = None.
Proof.
  induction v as [|c v IH]; intros Hv bot; rewrite match_here_Star.
  - apply divider_rest_nil.
  - assert (Hc : c <> lt_sign) by (intros ->; apply Hv; now left).
    rewrite (divider_rest_other bot c v Hc), IH
      by (intros H; apply Hv; now right).
    now destruct (lit nl c).
Qed.



Lemma find_from_no_markup (v : bytes) :
  ~ In lt_sign v ->
  forall pos, find_from (Star (lit nl) :: divider_rest) pos v = None.
Proof.
  induction v as [|c v IH]; intros Hv pos; cbn [find_from];
    rewrite divider_no_markup by assumption; [reflexivity|].
  apply IH. intros H; apply Hv; now right.
Qed.




Lemma FindIndex_no_markup (v : bytes) :
  ~ In lt_sign v -> FindIndex (dividerHTML goLanguage) v = None.
Proof.
  intros Hv. unfold FindIndex. rewrite dividerHTML_go.
  now apply find_from_no_markup.
Qed.

(** ** Trimming newlines *)

Lemma firstn_length_app (a b : bytes) : firstn (length a) (a ++ b) = a.
Proof. induction a; simpl; congruence. Qed.

Lemma skipn_length_app (a b : bytes) (k : nat) :
  skipn (length a + k) (a ++ b) = skipn k b.
Proof. induction a; simpl; auto. Qed.











(** ** Cutting the output at the highlighted dividers *)

Lemma join_with_cons (sep x y : bytes) (r : list bytes) :
  join_with sep (x :: y :: r) = x ++ sep ++ join_with sep (y :: r).
Proof. reflexivity. Qed.








(** ** Dropping the wrapping markup *)

Lemma Replace_from_skip (old new u t : bytes) :
  Replace_from old new (length u) (u ++ t) = Replace_from old new 0 t.
Proof. induction u; simpl; auto. Qed.

Lemma HasPrefix_app (old t : bytes) : HasPrefix (old ++ t) old = true.
Proof.
  induction old as [|o old IH]; [now destruct t|].
  cbn [app HasPrefix]. now rewrite Byte_eqb_refl, IH.
Qed.

Lemma Replace_at_instance (o : byte) (old new t : bytes) :
  Replace_from (o :: old) new 0 ((o :: old) ++ t)
  = new ++ Replace_from (o :: old) new 0 t.
Proof.
  cbn [app Replace_from].
  change (o :: old ++ t) with ((o :: old) ++ t).
  rewrite HasPrefix_app. cbn [length Nat.sub]. rewrite Nat.sub_0_r.
  now rewrite Replace_from_skip.
Qed.

Lemma Replace_passes_clean (o : byte) (old new u s : bytes) :
  ~ In o u ->
  Replace_from (o :: old) new 0 (u ++ s)
  = u ++ Replace_from (o :: old) new 0 s.
Proof.
  induction u as [|c u IH]; intros Hu; [reflexivity|].
  cbn [app Replace_from HasPrefix].
  assert (E : Byte.eqb o c = false).
  { apply Byte_eqb_neq. intros ->. apply Hu. now left. }
  rewrite E. cbn [andb]. rewrite IH; [reflexivity|].
  intros H. apply Hu. now right.
Qed.

Lemma highlightStart_cons :
  exists old, highlightStart = lt_sign :: old.
Proof. eexists. reflexivity. Qed.

Lemma highlightEnd_cons :
  exists old, highlightEnd = lt_sign :: old.
Proof. eexists. reflexivity. Qed.

Lemma Replace_start_passes_divider (s : bytes) :
  Replace_from highlightStart [] 0 (rendered_divider goLanguage ++ s)
  = rendered_divider goLanguage ++ Replace_from highlightStart [] 0 s.
Proof. vm_compute. reflexivity. Qed.

Lemma Replace_end_passes_divider (s : bytes) :
  Replace_from highlightEnd [] 0 (rendered_divider goLanguage ++ s)
  = rendered_divider goLanguage ++ Replace_from highlightEnd [] 0 s.
Proof. vm_compute. reflexivity. Qed.

Lemma Replace_passes_join (old : bytes) (codes : list bytes) (s : bytes) :
  (exists old', old = lt_sign :: old') ->
  (forall s', Replace_from old [] 0 (rendered_divider goLanguage ++ s')
              = rendered_divider goLanguage ++ Replace_from old [] 0 s') ->
  Forall (fun c => ~ In lt_sign c) codes ->
  Replace_from old [] 0 (join_with (rendered_divider goLanguage) codes ++ s)
  = join_with (rendered_divider goLanguage) codes ++ Replace_from old [] 0 s.
Proof.
  intros [old' ->] Hdiv Hclean.
  induction Hclean as [|c next Hc Hnext IH]; [reflexivity|].
  destruct next as [|c2 r].
  - cbn [join_with]. now apply Replace_passes_clean.
  - rewrite join_with_cons, <- !app_assoc.
    rewrite Replace_passes_clean by assumption.
    now rewrite Hdiv, IH.
Qed.

Lemma strip_wrapping_rendered (secs : list Section_) :
  Forall (fun e => ~ In lt_sign (codeText e)) secs ->
  strip_wrapping (rendered_output goLanguage secs)
  = join_with (rendered_divider goLanguage) (map codeText secs).
Proof.
  intros Hclean.
  assert (Hcodes : Forall (fun c => ~ In lt_sign c) (map codeText secs))
    by (apply Forall_map; exact Hclean).
  unfold strip_wrapping, rendered_output, Replace.
  destruct highlightStart_cons as [hs Hhs].
  rewrite Hhs at 1 2. rewrite Replace_at_instance. rewrite <- Hhs.
  cbn [app].
  rewrite (Replace_passes_join highlightStart _ highlightEnd
             highlightStart_cons Replace_start_passes_divider Hcodes).
  replace (Replace_from highlightStart [] 0 highlightEnd)
    with highlightEnd by (vm_compute; reflexivity).
  rewrite (Replace_passes_join highlightEnd _ highlightEnd
             highlightEnd_cons Replace_end_passes_divider Hcodes).
  replace (Replace_from highlightEnd [] 0 highlightEnd)
    with (@nil byte) by (vm_compute; reflexivity).
  apply app_nil_r.
Qed.

(** ** The round trip through the highlighter *)






(** One section alone comes back whole from the identity in the wrapping
    markup. *)
Lemma identity_single_section (md : bytes -> bytes) (source : bytes)
  (e : Section_) (language : Language) (w : world) :
  getLanguage source = Some language ->
  no_markup e ->
  exists w',
    highlight identity_highlighter md source [e] w
    = (Ok [highlighted md (codeText e) e], w').
Proof.
  intros Hlang Hclean. eexists.
  rewrite (highlight_ok identity_highlighter md source [e] language w Hlang).
  f_equal. f_equal.
  apply getLanguage_go in Hlang. subst language.
  assert (Hout : identity_highlighter (pygments_args goLanguage)
                   (pygments_stdin goLanguage [e])
                 = rendered_output goLanguage [e]).
  { unfold identity_highlighter, rendered_output, pygments_stdin.
    cbn [pygments_writes flat_map chunk_bytes app map join_with].
    now rewrite app_nil_r. }
  rewrite Hout, strip_wrapping_rendered
    by (constructor; [exact Hclean|constructor]).
  cbn [map join_with resplit].
  rewrite FindIndex_no_markup by exact Hclean.
  cbn [fst snd]. now rewrite firstn_all.
Qed.




Lemma highlight_missing_divider_witness :
  getLanguage (B "a.go") = Some goLanguage
  /\ (exists w',
        highlight identity_highlighter sample_markdown (B "a.go")
                  two_sections empty_world
        = (Ok (resplit sample_markdown goLanguage
                 (strip_wrapping
                    (identity_highlighter (pygments_args goLanguage)
                       (pygments_stdin goLanguage two_sections)))
                 two_sections), w'))
  /\ forall output e next,
       FindIndex (dividerHTML goLanguage) output = None ->
       resplit sample_markdown goLanguage output (e :: next)
       = highlighted sample_markdown output e
         :: map (highlighted sample_markdown []) next.
Proof.
  split; [reflexivity|].
  apply (highlight_missing_divider identity_highlighter sample_markdown
           (B "a.go") two_sections goLanguage empty_world).
  reflexivity.
Defined.

(** The divider pattern finds no match in the output for the first of two
    sections, and [highlight] returns: the first section has all of the
    output and the second has none of it. *)
Lemma highlight_returns_without_divider :
  FindIndex (dividerHTML goLanguage)
            (strip_wrapping
               (identity_highlighter (pygments_args goLanguage)
                  (pygments_stdin goLanguage two_sections))) = None
  /\ exists secs' w',
       highlight identity_highlighter sample_markdown (B "a.go")
                 two_sections empty_world = (Ok secs', w')
       /\ map CodeHTML secs'
          = [wrap (pygments_stdin goLanguage two_sections); wrap []].
Proof.
  split; [vm_compute; reflexivity|].
  do 2 eexists. split; vm_compute; reflexivity.
Qed.



(** ** A file in a language that is not registered *)

Section Unsupported.

Variable pygmentize : list bytes -> bytes -> bytes.
Variable MarkdownCommon : bytes -> bytes.
Variable template_Execute : bytes -> TemplateData -> option bytes.
Variable packageLocation : bytes.
Variable filepath_Join : bytes -> bytes -> bytes.

(** C4, as the code has it: for a source whose extension has no
    language, [generateDocumentation] never takes another language in
    its place and never completes.  It first reads the source file; if
    that fails it logs the error of the read and panics with it, and if
    not it panics in [parse] at the first use of the language, which is
    the nil pointer.  Up to the panic the read of the source is the one
    file operation of the task: no file is written. *)
Theorem unsupported_language_panics (source : bytes) (w : world) :
  getLanguage source = None ->
  exists v w',
    generateDocumentation pygmentize MarkdownCommon template_Execute
                          packageLocation filepath_Join source w
    = (Panic v, w')
    /\ v = match files w source with
           | Some _ => NilPointerDereference
           | None => PathError (B "open") source
           end
    /\ trace w' = trace w ++ EvReadFile source
                           :: match files w source with
                              | Some _ => []
                              | None => [EvLogPanic v]
                              end
    /\ (forall path data, In (EvWriteFile path data) (trace w') ->
                          In (EvWriteFile path data) (trace w))
    /\ files w' = files w
    /\ sources w' = sources w.
Proof.
  intros Hlang.
  unfold generateDocumentation, log_Panic, ReadFile, bind, emit, lift, panic,
    parse.
  cbn [files sources trace]. rewrite Hlang.
  destruct (files w source); do 2 eexists;
    (split; [reflexivity|]); (split; [reflexivity|]);
    cbn [files sources trace]; rewrite <- ?app_assoc;
    (split; [reflexivity|]); (split; [|split; reflexivity]);
    intros path data Hin; apply in_app_or in Hin;
    destruct Hin as [Hin|Hin]; try assumption;
    simpl in Hin; intuition discriminate.
Qed.

End Unsupported.

Lemma unsupported_language_panics_witness :
  getLanguage (B "a.xyz") = None
  /\ exists v w',
       generateDocumentation identity_highlighter sample_markdown
         sample_template (B "/usr") sample_Join (B "a.xyz") xyz_world
       = (Panic v, w')
       /\ v = match files xyz_world (B "a.xyz") with
              | Some _ => NilPointerDereference
              | None => PathError (B "open") (B "a.xyz")
              end
       /\ trace w' = trace xyz_world
                     ++ EvReadFile (B "a.xyz")
                        :: match files xyz_world (B "a.xyz") with
                           | Some _ => []
                           | None => [EvLogPanic v]
                           end
       /\ (forall path data, In (EvWriteFile path data) (trace w') ->
                             In (EvWriteFile path data) (trace xyz_world))
       /\ files w' = files xyz_world
       /\ sources w' = sources xyz_world.
Proof.
  split; [reflexivity|].
  apply (unsupported_language_panics identity_highlighter sample_markdown
           sample_template (B "/usr") sample_Join (B "a.xyz") xyz_world).
  reflexivity.
Defined.

(** For [a.xyz] the failure is not ahead of all file input and output,
    and it is no error that names the language: when the file is there,
    the run has made the directory, written the style sheet and read the
    source before the nil pointer is met; when it is not there, the
    failure is the error of the read. *)
Lemma unsupported_language_after_io :
  (exists w',
     main identity_highlighter sample_markdown sample_template (B "/usr")
          sample_Join [B "a.xyz"] xyz_world
     = (Panic NilPointerDereference, w')
     /\ trace w'
        = [EvMkdirAll (B "docs");
           EvReadFile (B "/usr/resources/gocco.css");
           EvWriteFile (B "docs/gocco.css") [];
           EvReadFile (B "a.xyz")])
  /\ (exists w',
        generateDocumentation identity_highlighter sample_markdown
          sample_template (B "/usr") sample_Join (B "a.xyz") empty_world
        = (Panic (PathError (B "open") (B "a.xyz")), w')
        /\ trace w' = [EvReadFile (B "a.xyz");
                       EvLogPanic (PathError (B "open") (B "a.xyz"))]).
Proof. split; eexists; split; vm_compute; reflexivity. Qed.

(** ** The document models of a run *)




Section Models.

Variable pygmentize : list bytes -> bytes -> bytes.
Variable MarkdownCommon : bytes -> bytes.
Variable template_Execute : bytes -> TemplateData -> option bytes.
Variable packageLocation : bytes.
Variable filepath_Join : bytes -> bytes -> bytes.

(** The value of the global [sources] during the tasks. *)
Variable srcs : list bytes.














End Models.




(** The two models of that run. *)
Example main_two_files :
  map (fun data => (Title data, Sources data, Multiple data))
      (template_events
         (trace (snd (main identity_highlighter sample_markdown
                           sample_template (B "/usr") sample_Join
                           [B "src/a.go"; B "b.go"] two_files_world))))
  = [(B "b.go", [B "b.go"; B "src/a.go"], true);
     (B "a.go", [B "b.go"; B "src/a.go"], true)].
Proof. vm_compute. reflexivity. Qed.

(** * Further properties of [parse] *)

Lemma scan_from_length (language : Language) (lines : list bytes) :
  forall st,
    length (sections (fold_left (scan_line language) lines st))
    = length (sections st) + transitions language (hasCode st) lines.
Proof.
  induction lines as [|l r IH]; intros st; cbn [fold_left transitions].
  - lia.
  - rewrite IH. unfold scan_line.
    destruct (Match (commentMatcher language) l);
      destruct (hasCode st) eqn:E;
      cbn [sections hasCode andb negb]; rewrite ?E; unfold save;
      rewrite ?length_app; simpl; lia.
Qed.

(** X1: [parse] returns one section more than there are places in the
    file where a comment line comes right after a code line. *)
Theorem parse_section_count (source code : bytes) (language : Language) :
  getLanguage source = Some language ->
  exists secs,
    parse source code = Ok secs
    /\ length secs = 1 + transitions language false (Split code nl).
Proof.
  intros Hlang. eexists. split; [apply (parse_ok _ code _ Hlang)|].
  unfold parse_lines, save, scan.
  rewrite length_app, scan_from_length. simpl. lia.
Qed.

Lemma parse_section_count_witness :
  getLanguage (B "a.go") = Some goLanguage
  /\ exists secs,
       parse (B "a.go") (B "x" ++ [nl] ++ B "// b" ++ [nl] ++ B "y") = Ok secs
       /\ length secs
          = 1 + transitions goLanguage false
                  (Split (B "x" ++ [nl] ++ B "// b" ++ [nl] ++ B "y") nl).
Proof.
  split; [reflexivity|].
  apply (parse_section_count (B "a.go")
           (B "x" ++ [nl] ++ B "// b" ++ [nl] ++ B "y") goLanguage).
  reflexivity.
Defined.

Lemma unlines_Split (s : bytes) : unlines (Split s nl) = s ++ [nl].
Proof.
  induction s as [|c s IH]; [reflexivity|].
  cbn [Split]. destruct (Byte.eqb c nl) eqn:E.
  - apply Byte_eqb_eq in E. subst c. rewrite unlines_cons, IH. reflexivity.
  - destruct (Split s nl) as [|piece pieces] eqn:Es;
      [now apply Split_nonempty in Es|].
    rewrite unlines_cons in *. cbn [app]. now rewrite IH.
Qed.

Lemma scan_from_code_only (language : Language) (lines : list bytes) :
  Forall (fun l => Match (commentMatcher language) l = false) lines ->
  forall st,
    fold_left (scan_line language) lines st
    = mkScan (sections st)
             (match lines with [] => hasCode st | _ :: _ => true end)
             (scanCode st ++ unlines lines) (scanDocs st).
Proof.
  induction 1 as [|l r Hl _ IH]; intros st; cbn [fold_left].
  - cbn [unlines flat_map]. rewrite app_nil_r. now destruct st.
  - rewrite IH. unfold scan_line. rewrite Hl.
    cbn [sections hasCode scanCode scanDocs].
    rewrite unlines_cons, <- !app_assoc. cbn [app].
    now destruct r.
Qed.

(** X2: a file none of whose lines is a comment gives one section, with
    no documentation and with the whole file, followed by a newline, as
    its code. *)
Theorem parse_code_only (source code : bytes) (language : Language) :
  getLanguage source = Some language ->
  Forall (fun l => Match (commentMatcher language) l = false)
         (Split code nl) ->
  parse source code = Ok [mkSection [] (code ++ [nl]) [] []].
Proof.
  intros Hlang Hcode. rewrite (parse_ok _ code _ Hlang).
  unfold parse_lines, scan. rewrite scan_from_code_only by assumption.
  cbn [sections scanDocs scanCode save app]. now rewrite unlines_Split.
Qed.

Lemma parse_code_only_witness :
  getLanguage (B "a.go") = Some goLanguage
  /\ Forall (fun l => Match (commentMatcher goLanguage) l = false)
            (Split (B "x" ++ [nl] ++ B "y / z" ++ [nl]) nl)
  /\ parse (B "a.go") (B "x" ++ [nl] ++ B "y / z" ++ [nl])
     = Ok [mkSection [] ((B "x" ++ [nl] ++ B "y / z" ++ [nl]) ++ [nl]) [] []].
Proof.
  assert (H : Forall (fun l => Match (commentMatcher goLanguage) l = false)
                     (Split (B "x" ++ [nl] ++ B "y / z" ++ [nl]) nl))
    by (repeat constructor).
  split; [reflexivity|]. split; [exact H|].
  apply (parse_code_only (B "a.go") (B "x" ++ [nl] ++ B "y / z" ++ [nl])
           goLanguage); [reflexivity|exact H].
Defined.




Lemma scan_later_sections_have_docs (language : Language)
  (lines : list bytes) :
  let st := scan language lines in
  (forall sec, In sec (tl (sections st)) -> docsText sec <> [])
  /\ (sections st <> [] -> scanDocs st <> []).
Proof.
  apply scan_invariant with
    (P := fun st =>
            (forall sec, In sec (tl (sections st)) -> docsText sec <> [])
            /\ (sections st <> [] -> scanDocs st <> [])).
  - split; [intros sec []|intros H; exfalso; now apply H].
  - intros st line [Htl Hdocs]. unfold scan_line.
    destruct (Match (commentMatcher language) line).
    + destruct (hasCode st) eqn:Hc; cbn [sections hasCode scanCode scanDocs].
      * split.
        -- unfold save. intros sec Hin.
           destruct (sections st) as [|first rest] eqn:E.
           ++ destruct Hin.
           ++ cbn [app tl] in Hin. apply in_app_or in Hin.
              destruct Hin as [Hin|[<-|[]]]; [now apply Htl|].
              cbn [docsText]. apply Hdocs. discriminate.
        -- intros _ H. apply app_eq_nil in H. destruct H as [_ H].
           apply app_eq_nil in H. destruct H as [_ H]. discriminate.
      * split; [exact Htl|].
        intros _ H. apply app_eq_nil in H. destruct H as [_ H].
        apply app_eq_nil in H. destruct H as [_ H]. discriminate.
    + cbn [sections hasCode scanCode scanDocs]. split; assumption.
Qed.

(** X4: every section that [parse] returns, except the first, has
    documentation that is not empty: only a comment line opens a section
    after the first. *)
Theorem parse_later_sections_have_docs
  (source code : bytes) (language : Language) :
  getLanguage source = Some language ->
  exists secs,
    parse source code = Ok secs
    /\ forall sec, In sec (tl secs) -> docsText sec <> [].
Proof.
  intros Hlang. eexists. split; [apply (parse_ok _ code _ Hlang)|].
  destruct (scan_later_sections_have_docs language (Split code nl))
    as [Htl Hdocs].
  unfold parse_lines, save. intros sec Hin.
  destruct (sections (scan language (Split code nl))) as [|first rest] eqn:E.
  - destruct Hin.
  - cbn [app tl] in Hin. apply in_app_or in Hin.
    destruct Hin as [Hin|[<-|[]]]; [now apply Htl|].
    cbn [docsText]. apply Hdocs. discriminate.
Qed.

Lemma parse_later_sections_have_docs_witness :
  getLanguage (B "a.go") = Some goLanguage
  /\ exists secs,
       parse (B "a.go") (B "x" ++ [nl] ++ B "// b" ++ [nl] ++ B "y") = Ok secs
       /\ forall sec, In sec (tl secs) -> docsText sec <> [].
Proof.
  split; [reflexivity|].
  apply (parse_later_sections_have_docs (B "a.go")
           (B "x" ++ [nl] ++ B "// b" ++ [nl] ++ B "y") goLanguage).
  reflexivity.
Defined.

(** Sections that are already closed stay in front of what the scan
    adds. *)
Lemma scan_line_with_front (language : Language) (front : list Section_)
  (st : scan_state) (line : bytes) :
  scan_line language (with_front front st) line
  = with_front front (scan_line language st line).
Proof.
  unfold scan_line, with_front.
  destruct (Match (commentMatcher language) line);
    [destruct (hasCode st) eqn:E|];
    cbn [sections hasCode scanCode scanDocs]; rewrite ?E; unfold save;
    rewrite <- ?app_assoc; reflexivity.
Qed.

Lemma scan_from_with_front (language : Language) (front : list Section_)
  (lines : list bytes) :
  forall st,
    fold_left (scan_line language) lines (with_front front st)
    = with_front front (fold_left (scan_line language) lines st).
Proof.
  induction lines as [|l r IH]; intros st; cbn [fold_left]; [reflexivity|].
  now rewrite scan_line_with_front, IH.
Qed.

Lemma scan_last_line (language : Language) (lines : list bytes)
  (line : bytes) :
  hasCode (scan language (lines ++ [line]))
  = negb (Match (commentMatcher language) line).
Proof.
  rewrite scan_snoc. unfold scan_line.
  destruct (Match (commentMatcher language) line); [|reflexivity].
  destruct (hasCode (scan language lines)) eqn:E; cbn [hasCode negb];
    rewrite ?E; reflexivity.
Qed.

Lemma parse_lines_app (language : Language) (l1 l2 : list bytes) :
  Match (commentMatcher language) (last l1 []) = false ->
  l1 <> [] ->
  Match (commentMatcher language) (hd [] l2) = true ->
  l2 <> [] ->
  parse_lines language (l1 ++ l2)
  = parse_lines language l1 ++ parse_lines language l2.
Proof.
  intros Hlast Hne Hfirst Hne2.
  destruct l2 as [|c2 r]; [congruence|].
  cbn [hd] in Hfirst.
  assert (Hcode : hasCode (scan language l1) = true).
  { destruct (exists_last Hne) as (front & x & ->).
    rewrite last_last in Hlast. rewrite scan_last_line, Hlast. reflexivity. }
  assert (Hst : scan_line language (scan language l1) c2
                = with_front (parse_lines language l1)
                    (scan_line language (mkScan [] false [] []) c2)).
  { unfold scan_line, with_front. rewrite Hfirst, Hcode.
    cbn [sections hasCode scanCode scanDocs].
    unfold parse_lines. now rewrite app_nil_r. }
  remember (parse_lines language l1) as secs1 eqn:E1.
  unfold parse_lines, scan.
  rewrite fold_left_app. fold (scan language l1). cbn [fold_left].
  rewrite Hst, scan_from_with_front. unfold with_front.
  cbn [sections hasCode scanCode scanDocs].
  unfold save. now rewrite <- app_assoc.
Qed.

Lemma Split_app_nl (a b : bytes) :
  Split (a ++ nl :: b) nl = Split a nl ++ Split b nl.
Proof.
  induction a as [|c a IH]; cbn [app Split].
  - now rewrite Byte_eqb_refl.
  - destruct (Byte.eqb c nl); [now rewrite IH|].
    rewrite IH. destruct (Split a nl) eqn:E; [|reflexivity].
    now apply Split_nonempty in E.
Qed.

(** X5: [parse] goes through a cut of the file at a newline after a code
    line and before a comment line: the sections of the whole are the
    sections of the part before followed by the sections of the part
    after. *)
Theorem parse_cut (source before after : bytes) (language : Language) :
  getLanguage source = Some language ->
  Match (commentMatcher language) (last (Split before nl) []) = false ->
  Match (commentMatcher language) (hd [] (Split after nl)) = true ->
  exists secs1 secs2,
    parse source before = Ok secs1
    /\ parse source after = Ok secs2
    /\ parse source (before ++ nl :: after) = Ok (secs1 ++ secs2).
Proof.
  intros Hlang Hlast Hfirst. do 2 eexists.
  split; [apply (parse_ok _ before _ Hlang)|].
  split; [apply (parse_ok _ after _ Hlang)|].
  rewrite (parse_ok _ _ _ Hlang), Split_app_nl.
  rewrite parse_lines_app; auto; apply Split_nonempty.
Qed.

Lemma parse_cut_witness :
  getLanguage (B "a.go") = Some goLanguage
  /\ Match (commentMatcher goLanguage)
           (last (Split (B "// a" ++ [nl] ++ B "x") nl) []) = false
  /\ Match (commentMatcher goLanguage)
           (hd [] (Split (B "// b" ++ [nl] ++ B "y") nl)) = true
  /\ exists secs1 secs2,
       parse (B "a.go") (B "// a" ++ [nl] ++ B "x") = Ok secs1
       /\ parse (B "a.go") (B "// b" ++ [nl] ++ B "y") = Ok secs2
       /\ parse (B "a.go")
                ((B "// a" ++ [nl] ++ B "x")
                   ++ nl :: (B "// b" ++ [nl] ++ B "y"))
          = Ok (secs1 ++ secs2).
Proof.
  split; [reflexivity|]. split; [reflexivity|]. split; [reflexivity|].
  apply (parse_cut (B "a.go") (B "// a" ++ [nl] ++ B "x")
           (B "// b" ++ [nl] ++ B "y") goLanguage); reflexivity.
Defined.

(** * Further properties of the comment matcher *)

Lemma takewhile_dropwhile (f : byte -> bool) (s : bytes) :
  s = takewhile f s ++ dropwhile f s.
Proof.
  induction s as [|c s IH]; [reflexivity|].
  cbn [takewhile dropwhile]. destruct (f c); [|reflexivity].
  cbn [app]. now rewrite <- IH.
Qed.

Lemma takewhile_all (f : byte -> bool) (s : bytes) :
  Forall (fun c => f c = true) (takewhile f s).
Proof.
  induction s as [|c s IH]; [constructor|].
  cbn [takewhile]. destruct (f c) eqn:E; constructor; assumption.
Qed.

Lemma dropwhile_head (f : byte -> bool) (s : bytes) :
  match dropwhile f s with
  | [] => True
  | c :: _ => f c = false
  end.
Proof.
  induction s as [|c s IH]; [exact I|].
  cbn [dropwhile]. destruct (f c) eqn:E; [exact IH|exact E].
Qed.

Lemma HasPrefix_split (k s : bytes) :
  HasPrefix s k = true -> exists t, s = k ++ t.
Proof.
  revert s. induction k as [|c k IH]; intros s H.
  - exists s. reflexivity.
  - destruct s as [|d s]; [discriminate H|].
    cbn [HasPrefix] in H. apply andb_true_iff in H. destruct H as [E H].
    apply Byte_eqb_eq in E. subst d.
    destruct (IH s H) as [t ->]. exists t. reflexivity.
Qed.

Lemma match_here_literal_fail (k : bytes) (re : Regexp) :
  forall s bot,
    HasPrefix s k = false -> match_here (literal k ++ re) bot s = None.
Proof.
  induction k as [|c k IH]; intros s bot H.
  - destruct s; discriminate H.
  - destruct s as [|d s]; [reflexivity|].
    cbn [HasPrefix] in H. cbn [literal map app match_here].
    fold (literal k). unfold lit at 1.
    destruct (Byte.eqb c d); [|reflexivity].
    cbn [andb] in H. now rewrite IH.
Qed.

Lemma match_here_last_Opt (cls : byte -> bool) (bot : bool) (t : bytes) :
  match_here [Opt cls] bot t
  = Some (match t with
          | [] => 0
          | c :: _ => if cls c then 1 else 0
          end).
Proof.
  destruct t as [|c t]; [reflexivity|].
  cbn [match_here]. now destruct (cls c).
Qed.

(** A greedy star takes the whole run when what follows it in the
    pattern cannot begin with a byte of the class. *)
Lemma match_here_Star_run (cls : byte -> bool) (re : Regexp) (t : bytes) :
  (forall b c s, cls c = true -> match_here re b (c :: s) = None) ->
  match t with [] => True | c :: _ => cls c = false end ->
  forall ws bot,
    Forall (fun c => cls c = true) ws ->
    match_here (Star cls :: re) bot (ws ++ t)
    = option_map (Nat.add (length ws))
        (match_here re (match ws with [] => bot | _ :: _ => false end) t).
Proof.
  intros Hre Ht ws. induction ws as [|w ws IH]; intros bot Hws.
  - cbn [app length]. rewrite match_here_Star.
    destruct t as [|c t].
    + now destruct (match_here re bot []).
    + rewrite Ht. now destruct (match_here re bot (c :: t)).
  - inversion Hws as [|? ? Hw Hws']; subst.
    cbn [app length]. rewrite match_here_Star, Hw, IH by assumption.
    rewrite (Hre bot w (ws ++ t) Hw), prefer_None_r.
    destruct ws; destruct (match_here re false t); reflexivity.
Qed.

Lemma find_from_eq (re : Regexp) (pos : nat) (s : bytes) :
  find_from re pos s
  = match match_here re (pos =? 0) s with
    | Some n => Some (pos, pos + n)
    | None =>
        match s with
        | [] => None
        | _ :: s' => find_from re (S pos) s'
        end
    end.
Proof. destruct s; reflexivity. Qed.

Lemma find_from_anchored (re : Regexp) (s : bytes) :
  forall pos, find_from (BeginText :: re) (S pos) s = None.
Proof.
  induction s as [|c s IH]; intros pos; cbn [find_from Nat.eqb match_here];
    [reflexivity|apply IH].
Qed.

Lemma ReplaceAll_from_anchored (re : Regexp) (s : bytes) :
  forall pos skip,
    ReplaceAll_from (BeginText :: re) [] (S pos) skip s = skipn skip s.
Proof.
  induction s as [|c s IH]; intros pos skip; cbn [ReplaceAll_from].
  - now destruct skip.
  - destruct skip as [|k]; [|apply IH].
    cbn [Nat.eqb match_here skipn]. now rewrite IH.
Qed.

Lemma drop_space_skipn (t : bytes) :
  skipn (length t - length (drop_space t)) t = drop_space t.
Proof.
  destruct t as [|d t]; [reflexivity|].
  cbn [drop_space length]. destruct (is_space d); cbn [length].
  - replace (S (length t) - length t) with 1 by lia. reflexivity.
  - now rewrite Nat.sub_diag.
Qed.

Section CommentMatcher.

Variable c0 : byte.
Variable sym' : bytes.
Hypothesis c0_no_space : is_space c0 = false.

Lemma comment_rest_no_space (b : bool) (c : byte) (s : bytes) :
  is_space c = true ->
  match_here (literal (c0 :: sym') ++ [Opt is_space]) b (c :: s) = None.
Proof.
  intros Hc. cbn [literal map app match_here]. unfold lit.
  destruct (Byte.eqb c0 c) eqn:E; [|reflexivity].
  apply Byte_eqb_eq in E. congruence.
Qed.

Lemma comment_match_here (line : bytes) :
  match_here (compile_commentMatcher (c0 :: sym')) true line
  = if HasPrefix (dropwhile is_space line) (c0 :: sym')
    then Some (length (takewhile is_space line) + length (c0 :: sym')
               + (length (skipn (length (c0 :: sym'))
                                (dropwhile is_space line))
                  - length (drop_space
                              (skipn (length (c0 :: sym'))
                                     (dropwhile is_space line)))))
    else None.
Proof.
  unfold compile_commentMatcher. cbn [match_here].
  change ((fix star (bot : bool) (s : bytes) {struct s} : option nat :=
             match s with
             | [] => match_here (literal (c0 :: sym') ++ [Opt is_space]) bot s
             | c :: s' =>
                 if is_space c
                 then prefer (option_map S (star false s'))
                        (match_here (literal (c0 :: sym') ++ [Opt is_space])
                                    bot s)
                 else match_here (literal (c0 :: sym') ++ [Opt is_space])
                                 bot s
             end) true line)
    with (match_here (Star is_space
                        :: literal (c0 :: sym') ++ [Opt is_space]) true line).
  rewrite (takewhile_dropwhile is_space line) at 1.
  rewrite match_here_Star_run;
    [|intros; now apply comment_rest_no_space
     |apply dropwhile_head|apply takewhile_all].
  destruct (HasPrefix (dropwhile is_space line) (c0 :: sym')) eqn:E.
  - destruct (HasPrefix_split _ _ E) as [t Ht]. rewrite Ht.
    rewrite match_here_literal, match_here_last_Opt.
    rewrite skipn_app, skipn_all, Nat.sub_diag. cbn [app skipn option_map].
    f_equal. destruct t as [|c t]; cbn [drop_space length]; [lia|].
    destruct (is_space c); cbn [length]; lia.
  - rewrite match_here_literal_fail by exact E. reflexivity.
Qed.

Lemma comment_Match (line : bytes) :
  Match (compile_commentMatcher (c0 :: sym')) line
  = HasPrefix (dropwhile is_space line) (c0 :: sym').
Proof.
  unfold Match, FindIndex. rewrite find_from_eq. cbn [Nat.eqb].
  rewrite comment_match_here.
  destruct (HasPrefix (dropwhile is_space line) (c0 :: sym')) eqn:E;
    [reflexivity|].
  destruct line as [|c line]; [reflexivity|].
  unfold compile_commentMatcher. now rewrite find_from_anchored.
Qed.

Lemma comment_ReplaceAll (line : bytes) :
  HasPrefix (dropwhile is_space line) (c0 :: sym') = true ->
  ReplaceAll (compile_commentMatcher (c0 :: sym')) line []
  = drop_space (skipn (length (c0 :: sym')) (dropwhile is_space line)).
Proof.
  intros E. unfold ReplaceAll.
  destruct line as [|c line]; [discriminate E|].
  cbn [ReplaceAll_from Nat.eqb]. rewrite comment_match_here, E.
  pose proof (takewhile_dropwhile is_space (c :: line)) as Hline.
  destruct (HasPrefix_split _ _ E) as [t Ht].
  assert (Hrest : skipn (length (c0 :: sym'))
                        (dropwhile is_space (c :: line)) = t).
  { rewrite Ht. rewrite <- (Nat.add_0_r (length (c0 :: sym'))).
    apply (skipn_length_app (c0 :: sym') t 0). }
  rewrite Hrest.
  remember (length t - length (drop_space t)) as k eqn:Hk.
  replace (length (takewhile is_space (c :: line)) + length (c0 :: sym') + k)
    with (S (length (takewhile is_space (c :: line)) + length sym' + k))
    by (cbn [length]; lia).
  unfold compile_commentMatcher. rewrite ReplaceAll_from_anchored.
  cbn [app].
  change (skipn (length (takewhile is_space (c :: line)) + length sym' + k)
                line)
    with (skipn (S (length (takewhile is_space (c :: line))
                    + length sym' + k)) (c :: line)).
  rewrite Hline at 2. rewrite Ht.
  replace (S (length (takewhile is_space (c :: line)) + length sym' + k))
    with (length (takewhile is_space (c :: line))
          + (length (c0 :: sym') + k)) by (cbn [length]; lia).
  rewrite !skipn_length_app. subst k. apply drop_space_skipn.
Qed.

End CommentMatcher.

(** X6: for a registered language, a line is a comment just when, after
    its leading white space, it begins with the comment symbol; and what
    [parse] keeps of a comment line is what follows the symbol, less one
    white space byte when there is one right after the symbol. *)
Theorem commentMatcher_strips (source : bytes) (language : Language)
  (line : bytes) :
  getLanguage source = Some language ->
  Match (commentMatcher language) line
  = HasPrefix (dropwhile is_space line) (symbol language)
  /\ (Match (commentMatcher language) line = true ->
      ReplaceAll (commentMatcher language) line []
      = drop_space (skipn (length (symbol language))
                          (dropwhile is_space line))).
Proof.
  intros Hlang. apply getLanguage_go in Hlang. subst language.
  assert (Hsp : is_space "/"%byte = false) by reflexivity.
  change (commentMatcher goLanguage)
    with (compile_commentMatcher ("/"%byte :: ["/"%byte])).
  change (symbol goLanguage) with ("/"%byte :: ["/"%byte]).
  rewrite (comment_Match _ _ Hsp). split; [reflexivity|].
  apply comment_ReplaceAll. exact Hsp.
Qed.

Lemma commentMatcher_strips_witness :
  getLanguage (B "a.go") = Some goLanguage
  /\ Match (commentMatcher goLanguage) (B "  //  a // b")
     = HasPrefix (dropwhile is_space (B "  //  a // b")) (symbol goLanguage)
  /\ (Match (commentMatcher goLanguage) (B "  //  a // b") = true ->
      ReplaceAll (commentMatcher goLanguage) (B "  //  a // b") []
      = drop_space (skipn (length (symbol goLanguage))
                          (dropwhile is_space (B "  //  a // b")))).
Proof.
  split; [reflexivity|].
  apply (commentMatcher_strips (B "a.go") goLanguage (B "  //  a // b")).
  reflexivity.
Defined.

(** * Further properties of [highlight] *)

Lemma match_here_le (re : Regexp) :
  forall bot s n, match_here re bot s = Some n -> n <= length s.
Proof.
  induction re as [|i re IH]; intros bot s n H.
  - injection H as <-. lia.
  - destruct i as [|cls|cls|cls].
    + cbn [match_here] in H. destruct bot; [eauto|discriminate].
    + cbn [match_here] in H. destruct s as [|c s]; [discriminate|].
      destruct (cls c); [|discriminate].
      destruct (match_here re false s) as [m|] eqn:E; [|discriminate].
      injection H as <-. apply IH in E. cbn [length]. lia.
    + cbn [match_here] in H. destruct s as [|c s]; [eauto|].
      destruct (cls c); [|eauto].
      destruct (match_here re false s) as [m|] eqn:E; cbn in H; [|eauto].
      injection H as <-. apply IH in E. cbn [length]. lia.
    + revert bot n H. induction s as [|c s IHs]; intros bot n H;
        rewrite match_here_Star in H; [eauto|].
      destruct (cls c); [|eauto].
      destruct (match_here (Star cls :: re) false s) as [m|] eqn:E;
        cbn in H; [|eauto].
      injection H as <-. apply IHs in E. cbn [length]. lia.
Qed.

Lemma find_from_bounds (re : Regexp) (s : bytes) :
  forall pos i j,
    find_from re pos s = Some (i, j) ->
    pos <= i /\ i <= j /\ j <= pos + length s.
Proof.
  induction s as [|c s IH]; intros pos i j H; rewrite find_from_eq in H.
  - destruct (match_here re (pos =? 0) []) as [n|] eqn:E; [|discriminate].
    injection H as <- <-. apply match_here_le in E. lia.
  - destruct (match_here re (pos =? 0) (c :: s)) as [n|] eqn:E.
    + injection H as <- <-. apply match_here_le in E. lia.
    + apply IH in H. cbn [length]. lia.
Qed.

(** X7: the two offsets that the divider pattern finds in the output are
    in order and within the output, so the two slices that [highlight]
    takes with them are within bounds. *)
Theorem dividerHTML_index_in_bounds (language : Language) (output : bytes)
  (i j : nat) :
  FindIndex (dividerHTML language) output = Some (i, j) ->
  i <= j /\ j <= length output.
Proof.
  intros H. apply find_from_bounds in H. lia.
Qed.

Lemma dividerHTML_index_in_bounds_witness :
  FindIndex (dividerHTML goLanguage)
            (B "x" ++ [nl; nl] ++ dividerSpan goLanguage ++ [nl] ++ B "y")
  = Some (1, 37)
  /\ 1 <= 37
  /\ 37 <= length (B "x" ++ [nl; nl] ++ dividerSpan goLanguage ++ [nl]
                     ++ B "y").
Proof.
  assert (H : FindIndex (dividerHTML goLanguage)
                (B "x" ++ [nl; nl] ++ dividerSpan goLanguage ++ [nl] ++ B "y")
              = Some (1, 37)) by (vm_compute; reflexivity).
  split; [exact H|].
  exact (dividerHTML_index_in_bounds goLanguage _ 1 37 H).
Defined.

Lemma cut_three (s : bytes) (i j : nat) :
  i <= j ->
  firstn i s ++ firstn (j - i) (skipn i s) ++ skipn j s = s.
Proof.
  intros Hij. transitivity (firstn i s ++ skipn i s);
    [f_equal|apply firstn_skipn].
  replace (skipn j s) with (skipn (j - i) (skipn i s))
    by (rewrite skipn_skipn; f_equal; lia).
  apply firstn_skipn.
Qed.

Lemma resplit_weave (md : bytes -> bytes) (language : Language)
  (secs : list Section_) :
  secs <> [] ->
  forall output,
    exists fs gaps,
      length fs = length secs
      /\ length gaps = length secs
      /\ map CodeHTML (resplit md language output secs) = map wrap fs
      /\ weave fs gaps = output.
Proof.
  induction secs as [|e next IH]; intros Hne output; [congruence|].
  cbn [resplit map CodeHTML].
  destruct (FindIndex (dividerHTML language) output) as [[i j]|] eqn:E.
  - assert (Hij : i <= j) by (apply find_from_bounds in E; lia).
    cbn [fst snd].
    destruct next as [|e2 r].
    + exists [firstn i output], [skipn i output].
      repeat split. cbn [weave]. rewrite app_nil_r. apply firstn_skipn.
    + destruct (IH ltac:(discriminate) (skipn j output))
        as (fs & gaps & Hf & Hg & Hmap & Hw).
      exists (firstn i output :: fs),
             (firstn (j - i) (skipn i output) :: gaps).
      split; [cbn [length]; now rewrite Hf|].
      split; [cbn [length]; now rewrite Hg|].
      split; [cbn [map]; now rewrite Hmap|].
      cbn [weave]. rewrite Hw. now apply cut_three.
  - cbn [fst snd]. rewrite firstn_all, skipn_all.
    destruct next as [|e2 r].
    + exists [output], [[]]. repeat split. cbn [weave].
      now rewrite !app_nil_r.
    + destruct (IH ltac:(discriminate) [])
        as (fs & gaps & Hf & Hg & Hmap & Hw).
      exists (output :: fs), ([] :: gaps).
      split; [cbn [length]; now rewrite Hf|].
      split; [cbn [length]; now rewrite Hg|].
      split; [cbn [map]; now rewrite Hmap|].
      cbn [weave app]. rewrite Hw. apply app_nil_r.
Qed.

(** X8: the pieces of highlighted code that [highlight] gives to the
    sections lie in the output of the highlighter (less its wrapping
    markup) one after the other, in the order of the sections, with what
    is passed over between and after them: no piece of the output goes to
    two sections and none is moved. *)
Theorem highlight_pieces_in_order (pyg : list bytes -> bytes -> bytes)
  (md : bytes -> bytes) (source : bytes) (secs : list Section_)
  (language : Language) (w : world) :
  getLanguage source = Some language ->
  secs <> [] ->
  exists secs' w' fs gaps,
    highlight pyg md source secs w = (Ok secs', w')
    /\ length fs = length secs
    /\ length gaps = length secs
    /\ map CodeHTML secs' = map wrap fs
    /\ weave fs gaps
       = strip_wrapping (pyg (pygments_args language)
                             (pygments_stdin language secs)).
Proof.
  intros Hlang Hne.
  destruct (resplit_weave md language secs Hne
              (strip_wrapping (pyg (pygments_args language)
                                   (pygments_stdin language secs))))
    as (fs & gaps & Hf & Hg & Hmap & Hw).
  do 2 eexists. exists fs, gaps.
  split; [apply (highlight_ok pyg md _ secs _ w Hlang)|].
  repeat split; assumption.
Qed.

Lemma highlight_pieces_in_order_witness :
  getLanguage (B "a.go") = Some goLanguage
  /\ two_sections <> []
  /\ exists secs' w' fs gaps,
       highlight span_highlighter sample_markdown (B "a.go") two_sections
                 empty_world = (Ok secs', w')
       /\ length fs = length two_sections
       /\ length gaps = length two_sections
       /\ map CodeHTML secs' = map wrap fs
       /\ weave fs gaps
          = strip_wrapping
              (span_highlighter (pygments_args goLanguage)
                                (pygments_stdin goLanguage two_sections)).
Proof.
  split; [reflexivity|]. split; [discriminate|].
  apply (highlight_pieces_in_order span_highlighter sample_markdown
           (B "a.go") two_sections goLanguage empty_world);
    [reflexivity|discriminate].
Defined.

(** X9: dropping the wrapping markup undoes putting a piece in it, when
    the piece has no byte [<]. *)
Theorem strip_wrapping_wrap (fragment : bytes) :
  ~ In lt_sign fragment ->
  strip_wrapping (wrap fragment) = fragment.
Proof.
  intros Hclean.
  change (wrap fragment)
    with (rendered_output goLanguage [mkSection [] fragment [] []]).
  rewrite strip_wrapping_rendered; [reflexivity|].
  constructor; [exact Hclean|constructor].
Qed.

Lemma strip_wrapping_wrap_witness :
  ~ In lt_sign (B "x := 1")
  /\ strip_wrapping (wrap (B "x := 1")) = B "x := 1".
Proof.
  assert (H : ~ In lt_sign (B "x := 1"))
    by (simpl; intuition discriminate).
  split; [exact H|]. exact (strip_wrapping_wrap (B "x := 1") H).
Defined.

(** X10: when the highlighter gives no output at all (as when the
    process could not be started, whose errors are dropped), [highlight]
    still returns, and every section gets the wrapping markup with nothing
    in it as its highlighted code. *)
Theorem highlight_without_output (pyg : list bytes -> bytes -> bytes)
  (md : bytes -> bytes) (source : bytes) (secs : list Section_)
  (language : Language) (w : world) :
  getLanguage source = Some language ->
  pyg (pygments_args language) (pygments_stdin language secs) = [] ->
  exists secs' w',
    highlight pyg md source secs w = (Ok secs', w')
    /\ secs' = map (fun e => mkSection (docsText e) (codeText e)
                              (md (docsText e))
                              (highlightStart ++ highlightEnd)) secs.
Proof.
  intros Hlang Hout. do 2 eexists.
  split; [apply (highlight_ok pyg md _ secs _ w Hlang)|].
  rewrite Hout. apply getLanguage_go in Hlang. subst language.
  change (strip_wrapping []) with (@nil byte).
  apply resplit_nil_output.
Qed.

Lemma highlight_without_output_witness :
  getLanguage (B "a.go") = Some goLanguage
  /\ (fun _ _ => []) (pygments_args goLanguage)
       (pygments_stdin goLanguage two_sections) = @nil byte
  /\ exists secs' w',
       highlight (fun _ _ => []) sample_markdown (B "a.go") two_sections
                 empty_world = (Ok secs', w')
       /\ secs' = map (fun e => mkSection (docsText e) (codeText e)
                                 (sample_markdown (docsText e))
                                 (highlightStart ++ highlightEnd))
                      two_sections.
Proof.
  split; [reflexivity|]. split; [reflexivity|].
  apply (highlight_without_output (fun _ _ => []) sample_markdown
           (B "a.go") two_sections goLanguage empty_world); reflexivity.
Defined.

(** * Further properties of the paths *)

Lemma Ext_suffix (path : bytes) : exists stem, path = stem ++ Ext path.
Proof.
  induction path as [|c path [stem IH]]; [exists []; reflexivity|].
  cbn [Ext]. destruct (Ext path) as [|d e] eqn:E.
  - destruct (existsb IsPathSeparator path).
    + exists (c :: path). now rewrite app_nil_r.
    + destruct (Byte.eqb c "."%byte).
      * exists []. reflexivity.
      * exists (c :: path). now rewrite app_nil_r.
  - exists (c :: stem). cbn [app]. now rewrite <- IH.
Qed.

Lemma Ext_go (stem : bytes) : Ext (stem ++ B ".go") = B ".go".
Proof.
  induction stem as [|c stem IH]; [reflexivity|].
  cbn [app Ext]. now rewrite IH.
Qed.

(** X11: the paths that have a language are the paths that end with
    [.go], and the language of each is the one of Go. *)
Theorem getLanguage_go_suffix (source : bytes) :
  (getLanguage source = Some goLanguage
   <-> exists stem, source = stem ++ B ".go")
  /\ (getLanguage source = None
      <-> ~ exists stem, source = stem ++ B ".go").
Proof.
  assert (Hiff : getLanguage source = Some goLanguage
                 <-> exists stem, source = stem ++ B ".go").
  { split.
    - unfold getLanguage, languages, setup, setupLanguages.
      cbn [map lookup].
      destruct (bytes_eqb (B ".go") (Ext source)) eqn:E; [|discriminate].
      intros _. apply bytes_eqb_eq in E.
      destruct (Ext_suffix source) as [stem Hs]. exists stem.
      now rewrite E, <- Hs.
    - intros [stem ->]. unfold getLanguage. rewrite Ext_go. reflexivity. }
  split; [exact Hiff|].
  split.
  - intros Hnone Hex. apply Hiff in Hex. congruence.
  - intros Hno. destruct (getLanguage source) as [l|] eqn:E; [|reflexivity].
    exfalso. apply Hno. apply Hiff.
    now rewrite (getLanguage_go source l E).
Qed.

Lemma HasPrefix_length (k s : bytes) :
  HasPrefix s k = true -> length k <= length s.
Proof.
  revert s. induction k as [|c k IH]; intros s H; [cbn; lia|].
  destruct s as [|d s]; [discriminate H|].
  cbn [HasPrefix] in H. apply andb_true_iff in H. destruct H as [_ H].
  apply IH in H. cbn [length]. lia.
Qed.

Lemma HasPrefix_refl (s : bytes) : HasPrefix s s = true.
Proof.
  induction s as [|c s IH]; [reflexivity|].
  cbn [HasPrefix]. now rewrite Byte_eqb_refl, IH.
Qed.

Lemma LastIndex_from_short (sub s : bytes) :
  forall pos, length s < length sub -> LastIndex_from pos s sub = None.
Proof.
  induction s as [|c s IH]; intros pos H; cbn [LastIndex_from].
  - destruct sub; [cbn in H; lia|reflexivity].
  - cbn [length] in H. rewrite IH by lia.
    destruct (HasPrefix (c :: s) sub) eqn:E; [|reflexivity].
    apply HasPrefix_length in E. cbn [length] in E. lia.
Qed.

Lemma LastIndex_from_suffix (a sub : bytes) :
  forall pos, LastIndex_from pos (a ++ sub) sub = Some (pos + length a).
Proof.
  induction a as [|x a IH]; intros pos.
  - cbn [app length]. rewrite Nat.add_0_r.
    destruct sub as [|c sub]; [reflexivity|].
    cbn [LastIndex_from].
    rewrite LastIndex_from_short by (cbn [length]; lia).
    now rewrite HasPrefix_refl.
  - cbn [app LastIndex_from length]. rewrite IH. f_equal. lia.
Qed.

(** X12: the destination of a source is [docs/], then the base name of
    the source without its extension, then [.html]; the index that cuts
    the extension off is always found, so the slice of the base name is
    within bounds. *)
Theorem destination_form (source : bytes) :
  exists stem,
    Base source = stem ++ Ext (Base source)
    /\ LastIndex (Base source) (Ext (Base source)) = Some (length stem)
    /\ destination source = B "docs/" ++ stem ++ B ".html".
Proof.
  destruct (Ext_suffix (Base source)) as [stem Hs]. exists stem.
  assert (Hi : LastIndex (Base source) (Ext (Base source))
               = Some (length stem)).
  { unfold LastIndex. rewrite Hs at 1. apply LastIndex_from_suffix. }
  split; [exact Hs|]. split; [exact Hi|].
  unfold destination. cbv zeta. rewrite Hi.
  rewrite Hs at 1. now rewrite firstn_length_app.
Qed.

Lemma last_element_no_separator (file : bytes) :
  existsb IsPathSeparator file = false -> last_element file = file.
Proof.
  destruct file as [|c file]; [reflexivity|].
  cbn [existsb last_element]. intros H. apply orb_false_iff in H.
  destruct H as [Hc Hf]. now rewrite Hf, Hc.
Qed.

Lemma last_element_after_separator (dir file : bytes) :
  existsb IsPathSeparator file = false ->
  last_element (dir ++ "/"%byte :: file) = file.
Proof.
  intros Hf. induction dir as [|c dir IH]; cbn [app last_element].
  - now rewrite Hf.
  - rewrite existsb_app. cbn [existsb].
    replace (IsPathSeparator "/"%byte) with true by reflexivity.
    cbn [orb]. rewrite orb_true_r. exact IH.
Qed.

Lemma trim_separators_id (path : bytes) (x : byte) :
  IsPathSeparator x = false ->
  rev (dropwhile IsPathSeparator (rev (path ++ [x]))) = path ++ [x].
Proof.
  intros Hx. rewrite rev_app_distr. cbn [rev app dropwhile]. rewrite Hx.
  change (x :: rev path) with ([x] ++ rev path).
  now rewrite rev_app_distr, rev_involutive.
Qed.

Lemma Base_of_file (dir file : bytes) :
  file <> [] ->
  existsb IsPathSeparator file = false ->
  Base file = file /\ Base (dir ++ "/"%byte :: file) = file.
Proof.
  intros Hne Hf.
  destruct (exists_last Hne) as (front & x & Hfile).
  assert (Hx : IsPathSeparator x = false).
  { rewrite Hfile, existsb_app in Hf. apply orb_false_iff in Hf.
    destruct Hf as [_ Hf]. cbn [existsb] in Hf. now rewrite orb_false_r in Hf. }
  split.
  - unfold Base. destruct file as [|c file]; [congruence|].
    rewrite Hfile, trim_separators_id, <- Hfile by exact Hx.
    rewrite last_element_no_separator by exact Hf. reflexivity.
  - unfold Base. destruct (dir ++ "/"%byte :: file) eqn:E;
      [now destruct dir|]. rewrite <- E.
    replace (dir ++ "/"%byte :: file)
      with ((dir ++ "/"%byte :: front) ++ [x])
      by (rewrite Hfile, <- app_assoc; reflexivity).
    rewrite trim_separators_id by exact Hx.
    rewrite <- app_assoc. cbn [app]. rewrite <- Hfile.
    rewrite last_element_after_separator by exact Hf.
    destruct file; [congruence|reflexivity].
Qed.

(** X13: the destination does not depend on the directory of the
    source: a file and the file of the same name in any directory have
    the same destination, so the page of the one takes the place of the
    page of the other. *)
Theorem destination_forgets_directory (dir file : bytes) :
  file <> [] ->
  existsb IsPathSeparator file = false ->
  destination (dir ++ B "/" ++ file) = destination file.
Proof.
  intros Hne Hf. destruct (Base_of_file dir file Hne Hf) as [H1 H2].
  unfold destination. cbv zeta.
  change (dir ++ B "/" ++ file) with (dir ++ "/"%byte :: file).
  now rewrite H1, H2.
Qed.

Lemma destination_forgets_directory_witness :
  B "main.go" <> []
  /\ existsb IsPathSeparator (B "main.go") = false
  /\ destination (B "src/gocco" ++ B "/" ++ B "main.go")
     = destination (B "main.go").
Proof.
  split; [discriminate|]. split; [reflexivity|].
  apply (destination_forgets_directory (B "src/gocco") (B "main.go"));
    [discriminate|reflexivity].
Defined.

(** * Further properties of the pages *)

Lemma templateSections_from (secs : list Section_) :
  forall i,
    map tsIndex (templateSections i secs)
    = map (fun k => (i + 1 + Z.of_nat k)%Z) (seq 0 (length secs))
    /\ map tsDocsHTML (templateSections i secs) = map DocsHTML secs
    /\ map tsCodeHTML (templateSections i secs) = map CodeHTML secs.
Proof.
  induction secs as [|sec next IH]; intros i; [repeat split|].
  destruct (IH (i + 1)%Z) as (Hi & Hd & Hc).
  cbn [templateSections map length seq tsIndex tsDocsHTML tsCodeHTML].
  rewrite Hi, Hd, Hc. repeat split.
  f_equal; [lia|]. rewrite <- seq_shift, map_map.
  apply map_ext. intros k. lia.
Qed.

(** X14: the sections handed to the template are the sections in their
    order, each with its two HTML texts, and numbered from 1 on. *)
Theorem templateSections_numbered (secs : list Section_) :
  map tsIndex (templateSections 0 secs)
  = map (fun k => Z.of_nat (S k)) (seq 0 (length secs))
  /\ map tsDocsHTML (templateSections 0 secs) = map DocsHTML secs
  /\ map tsCodeHTML (templateSections 0 secs) = map CodeHTML secs.
Proof.
  destruct (templateSections_from secs 0) as (Hi & Hd & Hc).
  repeat split; try assumption.
  rewrite Hi. apply map_ext. intros k. lia.
Qed.

(** * Further properties of a run *)

Section RunProperties.

Variable pygmentize : list bytes -> bytes -> bytes.
Variable MarkdownCommon : bytes -> bytes.
Variable template_Execute : bytes -> TemplateData -> option bytes.
Variable packageLocation : bytes.
Variable filepath_Join : bytes -> bytes -> bytes.




End RunProperties.


